(** * awssume: role registry, configuration store and ARN codec

    A shallow embedding of [pkg/awssume/awssume.go] and of the command
    closures of the [awssume] binary.  Go strings are byte strings
    ([string] of [ascii]); a method that mutates its receiver and returns
    an [error] becomes a function returning the new receiver together
    with [option error] ([None] is Go's [nil]); the filesystem behind
    [afero.Fs] is threaded explicitly. *)

From Stdlib Require Import String Ascii ZArith Lia Bool.
From Stdlib Require Import Sorting.Sorted Sorting.Permutation.
From stdpp Require Import gmap strings list fin_maps.

Open Scope string_scope.
Open Scope list_scope.

(* ===================================================================== *)
(** * Part I: the embedding                                               *)
(* ===================================================================== *)

(** ** Errors

    The sentinel errors ([errors.New]) and the [fmt.Errorf] formats of the
    package, one constructor each; a wrapped error ([%w]) is an argument.
    The last group are the errors of the collaborating libraries. *)
Inductive error : Type :=
  | ErrCommandMissing
  | ErrNoArgs
  | ErrNoShell
  | ErrUnsupportedConfigFormat
  | ErrMultipleConfigs
  | ErrUnexpected
  | ErrCheckFileExists (file : string) (wrapped : error)
  | ErrCreatingFile (wrapped : error)
  | ErrGetRoleByAlias (alias : string) (wrapped : error)
  | ErrLoadAWSConfig (wrapped : error)
  | ErrMarshal (wrapped : error)
  | ErrNewConfig (wrapped : error)
  | ErrReadingFile (file : string) (wrapped : error)
  | ErrRoleExists (alias : string)
  | ErrRoleNotFound (alias : string)
  | ErrSTSAssumeRole (arn : string) (wrapped : error)
  | ErrUnmarshal (wrapped : error)
  | ErrWritingToFile (file : string) (wrapped : error)
  | errTooFewArguments
  | errCurrentUser (wrapped : error)
  | arn_invalidPrefix
  | arn_invalidSections
  | os_ErrNotExist
  | os_PathError (msg : string)
  | json_SyntaxError
  | json_MarshalerError (wrapped : error)
  | exec_ExitError (status : Z)
  | exec_Error (msg : string)
  | lib_error (msg : string).

(** What a Go call can do: return, return an error, or panic. *)
Inductive Result (A : Type) : Type :=
  | Ok (a : A)
  | Err (e : error)
  | Panic.
Arguments Ok {A} a.
Arguments Err {A} e.
Arguments Panic {A}.

(** ** Go's [strings] and [path], as far as the package uses them *)
Module GoStrings.

(** [s[n:]] and [s[:n]] *)
Fixpoint from (n : nat) (s : string) : string :=
  match n, s with
  | O, _ => s
  | S n', String _ r => from n' r
  | S _, EmptyString => EmptyString
  end.

Fixpoint upto (n : nat) (s : string) : string :=
  match n, s with
  | O, _ => EmptyString
  | S n', String c r => String c (upto n' r)
  | S _, EmptyString => EmptyString
  end.

Definition HasPrefix (s prefix : string) : bool := String.prefix prefix s.

Definition HasSuffix (s suffix : string) : bool :=
  (String.length suffix <=? String.length s)%nat
  && String.eqb (from (String.length s - String.length suffix) s) suffix.

Definition TrimPrefix (s prefix : string) : string :=
  if HasPrefix s prefix then from (String.length prefix) s else s.

Definition TrimSuffix (s suffix : string) : string :=
  if HasSuffix s suffix
  then upto (String.length s - String.length suffix) s
  else s.

Fixpoint Join (elems : list string) (sep : string) : string :=
  match elems with
  | [] => EmptyString
  | [a] => a
  | a :: rest => a +:+ sep +:+ Join rest sep
  end.

(** [Index(s, sep)] followed by the two slices [s[:m]] and
    [s[m+len(sep):]] of [genSplit], for a one-byte separator. *)
Fixpoint cut (sep : ascii) (s : string) : option (string * string) :=
  match s with
  | EmptyString => None
  | String c r =>
      if Ascii.eqb c sep then Some (EmptyString, r)
      else match cut sep r with
           | Some (a, b) => Some (String c a, b)
           | None => None
           end
  end.

(** The loop of [genSplit]: at most [k] cuts, the rest is the last
    element. *)
Fixpoint genSplit (sep : ascii) (k : nat) (s : string) : list string :=
  match k with
  | O => [s]
  | S k' =>
      match cut sep s with
      | None => [s]
      | Some (a, b) => a :: genSplit sep k' b
      end
  end.

(** [SplitN(s, sep, n)] for a one-byte [sep] and [n >= 0]. *)
Definition SplitN (s : string) (sep : ascii) (n : nat) : list string :=
  match n with
  | O => []
  | S k => genSplit sep k s
  end.

(** [Count(s, sep)] for a one-byte separator. *)
Fixpoint Count (s : string) (sep : ascii) : nat :=
  match s with
  | EmptyString => O
  | String c r => (if Ascii.eqb c sep then 1 else 0) + Count r sep
  end.

End GoStrings.

Module GoPath.

(** The backward scan of [path.Ext]: [rev_s] is the path read from its
    end, [acc] the bytes already passed. *)
Fixpoint ext_scan (rev_s : list ascii) (acc : string) : string :=
  match rev_s with
  | [] => EmptyString
  | c :: r =>
      if Ascii.eqb c "/" then EmptyString
      else if Ascii.eqb c "." then String c acc
      else ext_scan r (String c acc)
  end.

Definition Ext (path : string) : string :=
  ext_scan (rev (list_ascii_of_string path)) EmptyString.

End GoPath.

(** ** The resource-identifier library [aws/arn] *)
Module arn.

Record ARN : Type := mkARN {
  Partition : string;
  Service : string;
  Region : string;
  AccountID : string;
  Resource : string
}.

Definition arnDelimiter : ascii := ":".
Definition arnSections : nat := 6.
Definition arnPrefix : string := "arn:".

Definition zero : ARN := mkARN "" "" "" "" "".

(** Modelled from the spec: [arn.Parse] belongs to the AWS SDK, which is
    not part of the sources; section 3 and 4.1 of the specification give
    its contract (the [arn:] prefix, then the six-section colon
    structure, the sixth section being the rest of the string), and
    [TestParseARN] fixes the field order and the zero value on failure. *)
Definition Parse (s : string) : ARN * option error :=
  if negb (GoStrings.HasPrefix s arnPrefix) then (zero, Some arn_invalidPrefix)
  else
    match GoStrings.SplitN s arnDelimiter arnSections with
    | [_; p; sv; rg; acc; res] => (mkARN p sv rg acc res, None)
    | _ => (zero, Some arn_invalidSections)
    end.

(** Modelled from the spec: [arn.ARN.String] of the AWS SDK, the string
    [arn:partition:service:region:accountID:resource] of section 3;
    [TestARNString] fixes [arn:::::] for the zero value. *)
Definition String_ (a : ARN) : string :=
  arnPrefix +:+ Partition a +:+ ":" +:+ Service a +:+ ":" +:+ Region a
    +:+ ":" +:+ AccountID a +:+ ":" +:+ Resource a.

End arn.

(** ** ConfigFormat *)

(** [type ConfigFormat int] with its [iota] constants. *)
Definition ConfigFormat : Type := Z.
Definition JSON : ConfigFormat := 0%Z.
Definition TOML : ConfigFormat := 1%Z.
Definition YAML : ConfigFormat := 2%Z.
Definition Unknown : ConfigFormat := 3%Z.

(** [FromExt], a method on a pointer to [ConfigFormat]: the value it
    stores through the receiver. *)
Definition FromExt (ext : string) : ConfigFormat :=
  let e := GoStrings.TrimPrefix ext "." in
  if String.eqb e "json" then JSON
  else if String.eqb e "toml" then TOML
  else if String.eqb e "yaml" || String.eqb e "yml" then YAML
  else Unknown.

(** [ConfigFormat.String] *)
Definition ConfigFormat_String (cf : ConfigFormat) : string :=
  if (cf =? JSON)%Z then "json"
  else if (cf =? TOML)%Z then "toml"
  else if (cf =? YAML)%Z then "yaml"
  else if (cf =? Unknown)%Z then "UNKNOWN"
  else "".

Definition DefaultConfigFilePath : string := ".config/awssume".

(** ** ARN: the wrapper with the custom encodings

    [type ARN struct{ *arn.ARN }]: every value the package builds
    ([ParseARN], the two [Unmarshal] hooks) holds a non-nil pointer, and
    the wrapper is modelled by the value it points to. *)
Definition ARN : Type := arn.ARN.

Definition ParseARN (s : string) : ARN * option error := arn.Parse s.

Definition ARN_String (a : ARN) : string := arn.String_ a.

(** [MarshalYAML] returns the string; [UnmarshalYAML] parses the scalar
    held by the node ([n.Value]). *)
Definition MarshalYAML (a : ARN) : string * option error := (ARN_String a, None).

Definition UnmarshalYAML (nodeValue : string) : ARN * option error :=
  ParseARN nodeValue.

(** [MarshalJSON]: the bytes of the string, as they are. *)
Definition MarshalJSON (a : ARN) : string * option error := (ARN_String a, None).

(** ** The validity check of [encoding/json]

    [json.Unmarshal] runs [checkValid] over its input before it decodes,
    and [json.Marshal] runs the same scanner ([compact]) over the bytes a
    [Marshaler] hands back.  The scanner accepts the JSON grammar: a
    value is an object, an array, a string, a number or one of
    [true], [false], [null], with blanks around it. *)
Module json.

Definition quote : ascii := Eval cbv in ascii_of_nat 34.
Definition backslash : ascii := Eval cbv in ascii_of_nat 92.

Definition isSpace (c : ascii) : bool :=
  Ascii.eqb c " " || Ascii.eqb c (ascii_of_nat 9)
  || Ascii.eqb c (ascii_of_nat 13) || Ascii.eqb c (ascii_of_nat 10).

Definition isDigit (c : ascii) : bool :=
  (48 <=? nat_of_ascii c)%nat && (nat_of_ascii c <=? 57)%nat.

Definition isHex (c : ascii) : bool :=
  isDigit c
  || ((97 <=? nat_of_ascii c)%nat && (nat_of_ascii c <=? 102)%nat)
  || ((65 <=? nat_of_ascii c)%nat && (nat_of_ascii c <=? 70)%nat).

Fixpoint skipSpace (s : string) : string :=
  match s with
  | String c r => if isSpace c then skipSpace r else s
  | EmptyString => s
  end.

Fixpoint digits (s : string) : string :=
  match s with
  | String c r => if isDigit c then digits r else s
  | EmptyString => s
  end.

(** one digit at least *)
Definition digits1 (s : string) : option string :=
  match s with
  | String c r => if isDigit c then Some (digits r) else None
  | EmptyString => None
  end.

Definition exponent (s : string) : option string :=
  match s with
  | String c r =>
      if Ascii.eqb c "e" || Ascii.eqb c "E" then
        match r with
        | String sg r' =>
            if Ascii.eqb sg "+" || Ascii.eqb sg "-" then digits1 r' else digits1 r
        | EmptyString => None
        end
      else Some s
  | EmptyString => Some s
  end.

Definition fraction (s : string) : option string :=
  match s with
  | String c r =>
      if Ascii.eqb c "." then
        match digits1 r with
        | Some r' => exponent r'
        | None => None
        end
      else exponent s
  | EmptyString => Some s
  end.

(** a number, its sign already read *)
Definition unsigned (s : string) : option string :=
  match s with
  | String c r =>
      if Ascii.eqb c "0" then fraction r
      else if isDigit c then fraction (digits r)
      else None
  | EmptyString => None
  end.

(** the rest of a string literal, its opening quote already read *)
Fixpoint inString (s : string) : option string :=
  match s with
  | EmptyString => None
  | String c r =>
      if Ascii.eqb c quote then Some r
      else if Ascii.eqb c backslash then
        match r with
        | String e r1 =>
            if Ascii.eqb e "u" then
              match r1 with
              | String h1 (String h2 (String h3 (String h4 r2))) =>
                  if isHex h1 && isHex h2 && isHex h3 && isHex h4
                  then inString r2 else None
              | _ => None
              end
            else if Ascii.eqb e quote || Ascii.eqb e backslash
                    || Ascii.eqb e "/" || Ascii.eqb e "b" || Ascii.eqb e "f"
                    || Ascii.eqb e "n" || Ascii.eqb e "r" || Ascii.eqb e "t"
            then inString r1 else None
        | EmptyString => None
        end
      else if (nat_of_ascii c <? 32)%nat then None
      else inString r
  end.

Definition literal (word s : string) : option string :=
  if String.prefix word s then Some (GoStrings.from (String.length word) s)
  else None.

(** [value n s] reads one value off the front of [s] and returns what
    follows it; [members] and [elements] read the inside of an object
    and of an array.  Every two nested calls read a byte at least, so
    [n] above twice the length of [s] is enough. *)
Fixpoint value (n : nat) (s : string) {struct n} : option string :=
  match n with
  | O => None
  | S n' =>
      match skipSpace s with
      | EmptyString => None
      | String c r =>
          if Ascii.eqb c "{" then
            match skipSpace r with
            | String c1 r1 =>
                if Ascii.eqb c1 "}" then Some r1 else members n' (String c1 r1)
            | EmptyString => None
            end
          else if Ascii.eqb c "[" then
            match skipSpace r with
            | String c1 r1 =>
                if Ascii.eqb c1 "]" then Some r1 else elements n' (String c1 r1)
            | EmptyString => None
            end
          else if Ascii.eqb c quote then inString r
          else if Ascii.eqb c "-" then unsigned r
          else if isDigit c then unsigned (String c r)
          else if Ascii.eqb c "t" then literal "rue" r
          else if Ascii.eqb c "f" then literal "alse" r
          else if Ascii.eqb c "n" then literal "ull" r
          else None
      end
  end
with members (n : nat) (s : string) {struct n} : option string :=
  match n with
  | O => None
  | S n' =>
      match s with
      | EmptyString => None
      | String c r =>
          if Ascii.eqb c quote then
            match inString r with
            | None => None
            | Some r1 =>
                match skipSpace r1 with
                | EmptyString => None
                | String c1 r2 =>
                    if Ascii.eqb c1 ":" then
                      match value n' r2 with
                      | None => None
                      | Some r3 =>
                          match skipSpace r3 with
                          | EmptyString => None
                          | String c3 r4 =>
                              if Ascii.eqb c3 "," then members n' (skipSpace r4)
                              else if Ascii.eqb c3 "}" then Some r4
                              else None
                          end
                      end
                    else None
                end
            end
          else None
      end
  end
with elements (n : nat) (s : string) {struct n} : option string :=
  match n with
  | O => None
  | S n' =>
      match value n' s with
      | None => None
      | Some r =>
          match skipSpace r with
          | EmptyString => None
          | String c r1 =>
              if Ascii.eqb c "," then elements n' r1
              else if Ascii.eqb c "]" then Some r1
              else None
          end
      end
  end.

(** a string literal with the bytes [s] between its quotes *)
Definition quoted (s : string) : string :=
  String quote (s +:+ String quote EmptyString).

(** [json.Valid]: one value, then blanks only. *)
Definition Valid (data : string) : bool :=
  match value (S (S (2 * String.length data))) data with
  | Some r => String.eqb (skipSpace r) EmptyString
  | None => false
  end.

End json.

(** ** Role *)

(** [ARN] is a pointer in the source: [None] is [nil]. *)
Record Role : Type := mkRole {
  Alias : string;
  Role_ARN : option ARN;
  SessionName : string
}.

Definition GetAlias (r : Role) : string := Alias r.
Definition SetAlias (alias : string) (r : Role) : Role :=
  mkRole alias (Role_ARN r) (SessionName r).
Definition GetARN (r : Role) : option ARN := Role_ARN r.
Definition SetARN (a : option ARN) (r : Role) : Role :=
  mkRole (Alias r) a (SessionName r).
Definition GetSessionName (r : Role) : string := SessionName r.
Definition SetSessionName (sname : string) (r : Role) : Role :=
  mkRole (Alias r) (Role_ARN r) sname.

(** ** Config

    [Path], [Format] and [Roles]; the fourth field of the source, the
    [afero.Fs] handle, is the filesystem that [Save] and [NewConfig]
    take and return. *)
Record Config : Type := mkConfig {
  Path : string;
  Format : ConfigFormat;
  Roles : list Role
}.

Definition GetPath (c : Config) : string := Path c.
Definition SetPath (p : string) (c : Config) : Config :=
  mkConfig p (Format c) (Roles c).
Definition GetFormat (c : Config) : ConfigFormat := Format c.
Definition SetFormat (format : ConfigFormat) (c : Config) : Config :=
  mkConfig (Path c) format (Roles c).
Definition SetRoles (roles : list Role) (c : Config) : Config :=
  mkConfig (Path c) (Format c) roles.

(** [GetRoles]: a fresh slice with the same elements. *)
Definition GetRoles (c : Config) : list Role := Roles c.

(** ** The registry operations *)

(** The [range] loop of [GetRoleByAlias]: the first role with the alias. *)
Fixpoint firstByAlias (alias : string) (roles : list Role) : option Role :=
  match roles with
  | [] => None
  | role :: rest =>
      if String.eqb (GetAlias role) alias then Some role
      else firstByAlias alias rest
  end.

Definition GetRoleByAlias (alias : string) (c : Config)
  : option Role * option error :=
  match firstByAlias alias (Roles c) with
  | Some role => (Some role, None)
  | None => (None, Some (ErrRoleNotFound alias))
  end.

(** The [range] loop of [RemoveRoleByAlias], which needs the index [i]. *)
Fixpoint firstIndexByAlias (alias : string) (roles : list Role) (i : nat)
  : option nat :=
  match roles with
  | [] => None
  | r :: rest =>
      if String.eqb (GetAlias r) alias then Some i
      else firstIndexByAlias alias rest (S i)
  end.

(** The builtin [copy(dst, src)]: the new contents of [dst] and the number
    of elements copied. *)
Definition copy {A : Type} (dst src : list A) : list A * nat :=
  let n := Nat.min (List.length dst) (List.length src) in
  (take n src ++ drop n dst, n).

(** [c.Roles = c.Roles[:i+copy(c.Roles[i:], c.Roles[i+1:])]]: the tail is
    moved one place down inside the backing array, which is then cut. *)
Definition RemoveRoleByAlias (alias : string) (c : Config)
  : Config * option error :=
  match firstIndexByAlias alias (GetRoles c) 0 with
  | Some i =>
      let '(moved, n) := copy (drop i (Roles c)) (drop (S i) (Roles c)) in
      let backing := take i (Roles c) ++ moved in
      (SetRoles (take (i + n) backing) c, None)
  | None => (c, Some (ErrRoleNotFound alias))
  end.

(** The comparison handed to [sort.Slice]:
    [roles[i].GetAlias() > roles[j].GetAlias()], on bytes. *)
Definition aliasGreater (a b : Role) : bool :=
  String.ltb (GetAlias b) (GetAlias a).

(** [sort.Slice] by insertion: each element in turn moves towards the
    front as long as [less] puts it before its neighbour, which on the
    sorted front part is the place found by [insert].  The library
    sorts short slices exactly so and longer ones by quicksort; with
    pairwise different aliases the sorted arrangement is the same
    whatever the method (lemma [sorted_perm_unique]). *)
Fixpoint insert (less : Role -> Role -> bool) (x : Role) (l : list Role)
  : list Role :=
  match l with
  | [] => [x]
  | y :: l' => if less x y then x :: y :: l' else y :: insert less x l'
  end.

Definition sort_Slice (less : Role -> Role -> bool) (l : list Role)
  : list Role :=
  fold_left (fun acc x => insert less x acc) l [].

Definition AddRole (r : Role) (c : Config) : Config * option error :=
  match GetRoleByAlias (GetAlias r) c with
  | (Some existingRole, None) => (c, Some (ErrRoleExists (GetAlias r)))
  | _ =>
      let roles := sort_Slice aliasGreater (Roles c ++ [r]) in
      (SetRoles roles c, None)
  end.

Definition UpdateRoleByAlias (alias : string) (r : Role) (c : Config)
  : Config * option error :=
  match RemoveRoleByAlias alias c with
  | (c', Some err) => (c', Some err)
  | (c', None) => (SetRoles (Roles c' ++ [r]) c', None)
  end.

(** ** The serialization libraries

    [encoding/json], [naoina/toml] and [yaml.v3] are collaborators; what
    they compute enters as functions of this record.  A library that calls
    back into the package takes the hook as its first argument.  Only the
    role list is encoded: the other fields of [Config] carry the tag ["-"]
    or are unexported. *)
Record Libraries : Type := mkLibraries {
  (** the text [json.Marshal] lays out around the encoded ARNs *)
  json_layout : list Role -> list string -> string;
  (** [json.Unmarshal] into a [Config], past the validity check *)
  json_decode : (string -> ARN * option error) -> string -> list Role
                -> list Role * option error;
  (** the same into the one-field struct of [UnmarshalJSON]: the value
      left in its field [Arn] *)
  json_decode_arn : string -> string;
  toml_Marshal : list Role -> string * option error;
  toml_Unmarshal : string -> list Role -> list Role * option error;
  yaml_Marshal : (ARN -> string * option error) -> list Role
                 -> string * option error;
  yaml_Unmarshal : (string -> ARN * option error) -> string -> list Role
                   -> list Role * option error
}.

(** [json.Unmarshal(bs, &intermediate)]: the value of the field [Arn]
    afterwards; nothing is stored unless the input is valid.  The error
    of the call is not kept: [UnmarshalJSON] overwrites it. *)
Definition json_Unmarshal_intermediate (L : Libraries) (bs : string) : string :=
  if json.Valid bs then json_decode_arn L bs else EmptyString.

(** [UnmarshalJSON]: [ParseARN] on what the decoder left in the field. *)
Definition UnmarshalJSON (L : Libraries) (bs : string) : ARN * option error :=
  let intermediate_Arn := json_Unmarshal_intermediate L bs in
  ParseARN intermediate_Arn.

(** [json.Unmarshal(data, cfg)] *)
Definition json_Unmarshal (L : Libraries) (data : string) (roles : list Role)
  : list Role * option error :=
  if json.Valid data then json_decode L (UnmarshalJSON L) data roles
  else (roles, Some json_SyntaxError).

(** The encoder [json.Marshal] picks for a field of type pointer to [ARN],
    which implements [json.Marshaler]: [null] for [nil], else the bytes of
    [MarshalJSON] once they pass the validity check. *)
Definition marshalerEncoder (p : option ARN) : string * option error :=
  match p with
  | None => ("null", None)
  | Some a =>
      match MarshalJSON a with
      | (b, None) =>
          if json.Valid b then (b, None)
          else (EmptyString, Some (json_MarshalerError json_SyntaxError))
      | (_, Some err) => (EmptyString, Some (json_MarshalerError err))
      end
  end.

(** The roles are encoded in order; the first error ends the encoding. *)
Fixpoint encodeARNs (roles : list Role) : list string * option error :=
  match roles with
  | [] => ([], None)
  | r :: rest =>
      match marshalerEncoder (GetARN r) with
      | (_, Some err) => ([], Some err)
      | (text, None) =>
          match encodeARNs rest with
          | (_, Some err) => ([], Some err)
          | (texts, None) => (text :: texts, None)
          end
      end
  end.

(** [json.Marshal(c)] *)
Definition json_Marshal (L : Libraries) (roles : list Role)
  : string * option error :=
  match encodeARNs roles with
  | (_, Some err) => (EmptyString, Some err)
  | (texts, None) => (json_layout L roles texts, None)
  end.

(** ** The filesystem behind [afero.Fs]

    The files by name, and the operations that fail on a name for a
    reason of the system (permissions, a broken link, a read-only
    medium): [fault op name] is the error of the system, if any.  An
    operation that fails leaves the files as they were. *)
Module afero.

Inductive Op : Type := OpStat | OpOpen | OpWrite | OpCreate | OpRemove.

Record Fs : Type := mkFs {
  files : gmap string string;
  fault : Op -> string -> option error
}.

Definition healthy : Op -> string -> option error := fun _ _ => None.

Definition Stat (fs : Fs) (name : string) : option error :=
  match fault fs OpStat name with
  | Some e => Some e
  | None =>
      match files fs !! name with
      | Some _ => None
      | None => Some os_ErrNotExist
      end
  end.

(** [os.IsNotExist] *)
Definition IsNotExist (err : error) : bool :=
  match err with
  | os_ErrNotExist => true
  | _ => false
  end.

(** [afero.Exists] *)
Definition Exists (fs : Fs) (path : string) : bool * option error :=
  match Stat fs path with
  | None => (true, None)
  | Some err => if IsNotExist err then (false, None) else (false, Some err)
  end.

(** [afero.ReadFile] *)
Definition ReadFile (fs : Fs) (filename : string) : string * option error :=
  match fault fs OpOpen filename with
  | Some e => (EmptyString, Some e)
  | None =>
      match files fs !! filename with
      | Some data => (data, None)
      | None => (EmptyString, Some os_ErrNotExist)
      end
  end.

(** [afero.WriteFile]: create or truncate, then write. *)
Definition WriteFile (fs : Fs) (filename data : string) : Fs * option error :=
  match fault fs OpWrite filename with
  | Some e => (fs, Some e)
  | None => (mkFs (<[filename := data]> (files fs)) (fault fs), None)
  end.

(** [Fs.Create]: create or truncate. *)
Definition Create (fs : Fs) (name : string) : Fs * option error :=
  match fault fs OpCreate name with
  | Some e => (fs, Some e)
  | None => (mkFs (<[name := EmptyString]> (files fs)) (fault fs), None)
  end.

(** [Fs.Remove] *)
Definition Remove (fs : Fs) (name : string) : Fs * option error :=
  match fault fs OpRemove name with
  | Some e => (fs, Some e)
  | None =>
      match files fs !! name with
      | Some _ => (mkFs (delete name (files fs)) (fault fs), None)
      | None => (fs, Some os_ErrNotExist)
      end
  end.

End afero.

(** ** Save *)

(** The [marshalFn] picked by the [switch] of [Save]; the default returns
    [nil, nil]. *)
Definition marshalFn (L : Libraries) (format : ConfigFormat)
  : list Role -> string * option error :=
  if (format =? JSON)%Z then json_Marshal L
  else if (format =? TOML)%Z then toml_Marshal L
  else if (format =? YAML)%Z then yaml_Marshal L MarshalYAML
  else fun _ => (EmptyString, None).

Definition Save (L : Libraries) (c : Config) (fs : afero.Fs)
  : afero.Fs * option error :=
  match marshalFn L (GetFormat c) (Roles c) with
  | (_, Some err) => (fs, Some (ErrMarshal err))
  | (bytes, None) =>
      afero.WriteFile fs
        (GoStrings.Join [GetPath c; ConfigFormat_String (GetFormat c)] ".")
        bytes
  end.

(** ** NewConfig *)

Definition filePath (c : Config) (format : ConfigFormat) : string :=
  GoStrings.Join [GetPath c; ConfigFormat_String format] ".".

(** The tail of [NewConfig]: the [unmarshalFn] picked by the [switch] and
    its call. *)
Definition decodeInto (L : Libraries) (bytes : string) (cfg : Config)
  : Result Config :=
  let run (unmarshalFn : string -> list Role -> list Role * option error) :=
    match unmarshalFn bytes (Roles cfg) with
    | (_, Some err) => Err (ErrUnmarshal err)
    | (roles, None) => Ok (SetRoles roles cfg)
    end in
  if (GetFormat cfg =? JSON)%Z then run (json_Unmarshal L)
  else if (GetFormat cfg =? YAML)%Z then run (yaml_Unmarshal L UnmarshalYAML)
  else if (GetFormat cfg =? TOML)%Z then run (toml_Unmarshal L)
  else if (GetFormat cfg =? Unknown)%Z then Err ErrUnsupportedConfigFormat
  else Err ErrUnexpected.

Definition NewConfig (L : Libraries) (opts_Path : string) (fs : afero.Fs)
  : afero.Fs * Result Config :=
  let cfg := mkConfig (GoStrings.TrimSuffix opts_Path (GoPath.Ext opts_Path))
                      Unknown [] in
  let JSONFilePath := filePath cfg JSON in
  match afero.Exists fs JSONFilePath with
  | (_, Some JSONFileExistsErr) =>
      (fs, Err (ErrCheckFileExists JSONFilePath JSONFileExistsErr))
  | (JSONFileExists, None) =>
  let YAMLFilePath := filePath cfg YAML in
  match afero.Exists fs YAMLFilePath with
  | (_, Some YAMLFileExistsErr) =>
      (fs, Err (ErrCheckFileExists YAMLFilePath YAMLFileExistsErr))
  | (YAMLFileExists, None) =>
  let TOMLFilePath := filePath cfg TOML in
  match afero.Exists fs TOMLFilePath with
  | (_, Some TOMLFileExistsErr) =>
      (fs, Err (ErrCheckFileExists TOMLFilePath TOMLFileExistsErr))
  | (TOMLFileExists, None) =>
  if JSONFileExists && YAMLFileExists && TOMLFileExists
     || JSONFileExists && YAMLFileExists
     || JSONFileExists && TOMLFileExists
     || YAMLFileExists && TOMLFileExists
  then (fs, Err ErrMultipleConfigs)
  else
    let cfg :=
      if JSONFileExists then SetFormat JSON cfg
      else if YAMLFileExists then SetFormat YAML cfg
      else if TOMLFileExists then SetFormat TOML cfg
      else SetFormat YAML cfg in
    let cfgPath := filePath cfg (GetFormat cfg) in
    match afero.ReadFile fs cfgPath with
    | (bytes, None) => (fs, decodeInto L bytes cfg)
    | (bytes, Some err) =>
        if afero.IsNotExist err then
          match afero.Create fs cfgPath with
          | (fs', None) => (fs', decodeInto L bytes cfg)
          | (fs', Some _) =>
              (* [defer f.Close()] on the nil file comes before the test
                 of [err] *)
              (fs', Panic)
          end
        else (fs, Err (ErrReadingFile cfgPath err))
    end
  end end end.

(** ** The process around the package

    What a command of the binary sees of its surroundings: the current
    user, the AWS configuration, the STS service and the child process.
    [Run] is the method [Run] of [exec.Cmd]: [None] when the child exits with status
    0, [exec_ExitError status] when it exits with another status, any
    other error when it does not start. *)
Record Credentials : Type := mkCredentials {
  AccessKeyId : string;
  SecretAccessKey : string;
  SessionToken : string
}.

Record Process : Type := mkProcess {
  user_Current : option error;
  (** [path.Join(curUser.HomeDir, DefaultConfigFilePath)] *)
  configFile : string;
  LoadDefaultAWSConfig : option error;
  AssumeRole : Z -> string -> string -> Result Credentials;
  Environ : list string;
  Run : string -> list string -> list string -> option error
}.

(** How a command ends: it returns its error to [main], it ends the
    process itself ([os.Exit]), or it panics. *)
Inductive Outcome : Type :=
  | Returns (err : option error)
  | Exits (status : Z)
  | Panics.

Definition isNil (err : option error) : bool :=
  match err with
  | None => true
  | Some _ => false
  end.

Definition AWSAccessKeyIDEnvVar : string := "AWS_ACCESS_KEY_ID".
Definition AWSSecreteAccessKeyEnvVar : string := "AWS_SECRET_ACCESS_KEY".
Definition AWSSecurityTokenEnvVar : string := "AWS_SECURITY_TOKEN".
Definition AWSSessionTokenEnvVar : string := "AWS_SESSION_TOKEN".

(** [EnvMap.StringSlice], in the order of the map literal. *)
Definition StringSlice (m : list (string * string)) : list string :=
  map (fun kv => GoStrings.Join [fst kv; snd kv] "=") m.

(** ** ExecRole *)
Definition ExecRole (P : Process) (alias : string) (sessionDuration : Z)
    (command : string) (arguments : list string) (c : Config) : Outcome :=
  match LoadDefaultAWSConfig P with
  | Some err => Returns (Some (ErrLoadAWSConfig err))
  | None =>
  match GetRoleByAlias alias c with
  | (_, Some err) => Returns (Some (ErrGetRoleByAlias alias err))
  | (None, None) => Panics
  | (Some resRole, None) =>
  match GetARN resRole with
  | None => Panics
  | Some roleArn =>
  match AssumeRole P sessionDuration (ARN_String roleArn)
                   (GetSessionName resRole) with
  | Panic => Panics
  | Err err => Returns (Some (ErrSTSAssumeRole (ARN_String roleArn) err))
  | Ok res =>
      let env := Environ P ++ StringSlice
        [ (AWSAccessKeyIDEnvVar, AccessKeyId res);
          (AWSSecreteAccessKeyEnvVar, SecretAccessKey res);
          (AWSSecurityTokenEnvVar, SessionToken res);
          (AWSSessionTokenEnvVar, SessionToken res) ] in
      let err := Run P command arguments env in
      if negb (isNil err) then
        if negb (isNil err) then Returns err
        else
          match err with
          | Some (exec_ExitError waitStatus) => Exits waitStatus
          | _ => Returns None
          end
      else Returns None
  end end end end.

(** ** The commands of the binary *)

(** The [RunE] of [convertCmd]. *)
Definition convertCmd (L : Libraries) (P : Process) (args : list string)
    (fs : afero.Fs) : afero.Fs * Outcome :=
  match args with
  | [] => (fs, Returns (Some errTooFewArguments))
  | fmtExt :: _ =>
      match user_Current P with
      | Some err => (fs, Returns (Some (errCurrentUser err)))
      | None =>
          match NewConfig L (configFile P) fs with
          | (fs1, Panic) => (fs1, Panics)
          | (fs1, Err err) => (fs1, Returns (Some (ErrNewConfig err)))
          | (fs1, Ok cfg) =>
              let toRemove := filePath cfg (GetFormat cfg) in
              let cfgFmt := FromExt fmtExt in
              let cfg := SetFormat cfgFmt cfg in
              match Save L cfg fs1 with
              | (fs2, Some err) =>
                  (fs2, Returns (Some (ErrWritingToFile
                                         (filePath cfg (GetFormat cfg)) err)))
              | (fs2, None) =>
                  let '(fs3, err) := afero.Remove fs2 toRemove in
                  (fs3, Returns err)
              end
          end
      end
  end.

(** The [RunE] of [execCmd]; [dashIdx] is [cmd.ArgsLenAtDash()]. *)
Definition execCmd (L : Libraries) (P : Process) (sessionDuration : Z)
    (args : list string) (dashIdx : Z) (fs : afero.Fs) : afero.Fs * Outcome :=
  match args with
  | [] => (fs, Returns (Some errTooFewArguments))
  | alias :: rest =>
      if (dashIdx =? -1)%Z then (fs, Returns (Some ErrCommandMissing))
      else
        match rest with
        | [] => (fs, Panics)
        | command :: arguments =>
            match user_Current P with
            | Some err => (fs, Returns (Some (errCurrentUser err)))
            | None =>
                match NewConfig L (configFile P) fs with
                | (fs1, Panic) => (fs1, Panics)
                | (fs1, Err err) => (fs1, Returns (Some (ErrNewConfig err)))
                | (fs1, Ok cfg) =>
                    (fs1, ExecRole P alias sessionDuration command arguments cfg)
                end
            end
        end
  end.

(** The end of [main]: an error returned by the command is printed and
    the process exits with status 1; a panic ends a Go process with
    status 2. *)
Definition exitStatus (o : Outcome) : Z :=
  match o with
  | Returns None => 0
  | Returns (Some _) => 1
  | Exits status => status
  | Panics => 2
  end.

(** ** The specification's reading of the registry operations

    Section 4.3 of the specification describes removal and update on the
    role sequence itself; the two functions below follow its words and
    are compared with the operations of the source in Part II. *)

(** "removes the first (only) match, preserving relative order of
    remaining elements" *)
Fixpoint spec_removeByAlias (alias : string) (roles : list Role)
  : option (list Role) :=
  match roles with
  | [] => None
  | r :: rest =>
      if String.eqb (Alias r) alias then Some rest
      else
        match spec_removeByAlias alias rest with
        | Some rest' => Some (r :: rest')
        | None => None
        end
  end.

(** "equivalent to remove-then-append; does not re-sort after the
    append" *)
Definition spec_updateByAlias (alias : string) (newRole : Role)
    (roles : list Role) : option (list Role) :=
  match spec_removeByAlias alias roles with
  | Some rest => Some (rest ++ [newRole])
  | None => None
  end.

(** The properties the claims speak of. *)

Definition aliases (c : Config) : list string := map Alias (Roles c).

Definition uniqueAliases (c : Config) : Prop := NoDup (aliases c).

(** descending by alias: no role is followed, anywhere later in the
    sequence, by one with a greater alias *)
Definition notBelow (a b : Role) : Prop :=
  String.ltb (Alias a) (Alias b) = false.

Definition sortedDescending (roles : list Role) : Prop :=
  StronglySorted notBelow roles.

(** the number of colon-delimited segments of a string *)
Definition segments (s : string) : nat := S (GoStrings.Count s ":").

(** the parse failures the specification calls MalformedIdentifier *)
Definition MalformedIdentifier (err : option error) : Prop :=
  err = Some arn_invalidPrefix \/ err = Some arn_invalidSections.

(** a field that holds no colon *)
Definition colonFree (s : string) : Prop := GoStrings.Count s ":" = 0.

(** the existence of a file as the probe of [NewConfig] sees it *)
Definition fileExists (fs : afero.Fs) (name : string) (b : bool) : Prop :=
  afero.Exists fs name = (b, None).

(** ** The other commands and helpers *)

(** The environment [ExecRole] hands to the child: [os.Environ()] and
    then the four variables of the credentials. *)
Definition childEnv (P : Process) (res : Credentials) : list string :=
  Environ P ++ StringSlice
    [ (AWSAccessKeyIDEnvVar, AccessKeyId res);
      (AWSSecreteAccessKeyEnvVar, SecretAccessKey res);
      (AWSSecurityTokenEnvVar, SessionToken res);
      (AWSSessionTokenEnvVar, SessionToken res) ].

(** The [RunE] of [addCmd].  The test on the number of arguments lets
    fewer than three through; [args[0]], [args[1]] and [args[2]] are
    indexed after the configuration is loaded. *)
Definition addCmd (L : Libraries) (P : Process) (args : list string)
    (fs : afero.Fs) : afero.Fs * Outcome :=
  if (3 <? List.length args)%nat then (fs, Returns (Some errTooFewArguments))
  else
    match user_Current P with
    | Some err => (fs, Returns (Some (errCurrentUser err)))
    | None =>
        match NewConfig L (configFile P) fs with
        | (fs1, Panic) => (fs1, Panics)
        | (fs1, Err err) => (fs1, Returns (Some (ErrNewConfig err)))
        | (fs1, Ok cfg) =>
            match args with
            | [] => (fs1, Panics)
            | arg0 :: rest =>
                match ParseARN arg0 with
                | (_, Some err) => (fs1, Returns (Some err))
                | (roleARN, None) =>
                    match rest with
                    | arg1 :: arg2 :: _ =>
                        match AddRole (mkRole arg1 (Some roleARN) arg2) cfg with
                        | (_, Some err) => (fs1, Returns (Some err))
                        | (cfg', None) =>
                            let '(fs2, err) := Save L cfg' fs1 in
                            (fs2, Returns err)
                        end
                    | _ => (fs1, Panics)
                    end
                end
            end
        end
    end.

(** [GetShell]: [SHELL] is [os.Getenv("SHELL")], [LookPath] is
    [exec.LookPath]. *)
Definition GetShell (SHELL : string) (LookPath : string -> string * option error)
  : string * option error :=
  if String.eqb SHELL EmptyString then
    match LookPath "/bin/bash" with
    | (shell, None) => (shell, None)
    | (_, Some _) =>
        match LookPath "/bin/sh" with
        | (shell, None) => (shell, None)
        | (_, Some _) => (EmptyString, Some ErrNoShell)
        end
    end
  else (SHELL, None).

(** a filesystem on which no operation fails for a reason of the system *)
Definition faultless (fs : afero.Fs) : Prop :=
  forall op name, afero.fault fs op name = None.

(** the three formats a configuration file can have *)
Definition supported (format : ConfigFormat) : Prop :=
  format = JSON \/ format = YAML \/ format = TOML.

(** ** Sample data, after the tests and the end-to-end scenarios of the
    specification *)

Definition skunkARN : ARN := arn.mkARN "aws" "iam" "" "000000000000" "role/skunk".

Definition skunk : Role := mkRole "skunk" (Some skunkARN) "sess".
Definition otter : Role :=
  mkRole "otter" (Some (arn.mkARN "aws" "iam" "" "000000000000" "role/otter")) "sess".
Definition zebra : Role :=
  mkRole "zebra" (Some (arn.mkARN "aws" "iam" "" "000000000000" "role/zebra")) "sess".

(** a second role under the alias [skunk] *)
Definition skunk2 : Role :=
  mkRole "skunk" (Some (arn.mkARN "aws" "iam" "" "111111111111" "role/skunk")) "other".

Definition cfgTwo : Config := mkConfig "cfg" YAML [skunk; otter].

(** Libraries that encode to nothing and decode nothing, to run the
    store on sample filesystems. *)
Definition idleLibraries : Libraries :=
  mkLibraries (fun _ _ => EmptyString)
              (fun _ _ roles => (roles, None))
              (fun _ => EmptyString)
              (fun _ => (EmptyString, None))
              (fun _ roles => (roles, None))
              (fun _ _ => (EmptyString, None))
              (fun _ _ roles => (roles, None)).

(** Libraries whose YAML decoder reads the roles [skunk] and [otter],
    to run the commands on a loaded registry. *)
Definition stockedLibraries : Libraries :=
  mkLibraries (fun _ _ => EmptyString)
              (fun _ _ roles => (roles, None))
              (fun _ => EmptyString)
              (fun _ => (EmptyString, None))
              (fun _ roles => (roles, None))
              (fun _ _ => (EmptyString, None))
              (fun _ _ _ => ([skunk; otter], None)).

(** a filesystem holding [cfg.json] and [cfg.yaml] *)
Definition fsTwoConfigs : afero.Fs :=
  afero.mkFs (<["cfg.json" := "{}"]> (<["cfg.yaml" := EmptyString]> ∅))
             afero.healthy.

(** the same files, on a system where the stat of [cfg.toml] fails (a
    link that leads back to itself) *)
Definition fsBrokenTOML : afero.Fs :=
  afero.mkFs (<["cfg.json" := "{}"]> (<["cfg.yaml" := EmptyString]> ∅))
             (fun op name =>
                match op with
                | afero.OpStat =>
                    if String.eqb name "cfg.toml"
                    then Some (os_PathError "too many levels of symbolic links")
                    else None
                | _ => None
                end).

(** a filesystem holding [cfg.yaml] only *)
Definition fsYAML : afero.Fs :=
  afero.mkFs (<["cfg.yaml" := EmptyString]> ∅) afero.healthy.

(** a process whose child exits with status 3 *)
Definition processExit3 : Process :=
  mkProcess None "cfg" None
            (fun _ _ _ => Ok (mkCredentials "AKIA" "secret" "token"))
            []
            (fun _ _ _ => Some (exec_ExitError 3)).

(* ===================================================================== *)
(** * Part II: the properties                                             *)
(* ===================================================================== *)

(** ** Strings *)

#[local] Arguments String.append !s1 s2 : simpl nomatch.

Lemma append_String_assoc (a b c : string) : (a +:+ b) +:+ c = a +:+ (b +:+ c).
Proof. induction a as [|x a IH]; simpl; [reflexivity | now rewrite IH]. Qed.

Lemma from_append (a b : string) : GoStrings.from (String.length a) (a +:+ b) = b.
Proof. induction a as [|x a IH]; simpl; auto. Qed.

Lemma prefix_append (p s : string) :
  String.prefix p s = true <-> exists r, s = p +:+ r.
Proof.
  revert s. induction p as [|x p IH]; intros s.
  - split; [intros _; now exists s | intros _; now destruct s].
  - destruct s as [|y s]; simpl.
    + split; [discriminate | intros [r Hr]; discriminate].
    + destruct (ascii_dec x y) as [->|Hne].
      * rewrite IH. split; intros [r Hr]; exists r; congruence.
      * split; [discriminate | intros [r Hr]; congruence].
Qed.

Lemma Count_append (a b : string) (sep : ascii) :
  GoStrings.Count (a +:+ b) sep = GoStrings.Count a sep + GoStrings.Count b sep.
Proof. induction a as [|x a IH]; simpl; [reflexivity | rewrite IH; lia]. Qed.

Lemma cut_None (sep : ascii) (s : string) :
  GoStrings.cut sep s = None <-> GoStrings.Count s sep = 0.
Proof.
  induction s as [|c s IH]; simpl; [tauto |].
  destruct (Ascii.eqb c sep); simpl.
  - split; [discriminate | lia].
  - destruct (GoStrings.cut sep s) as [[a b]|]; rewrite <- IH;
      split; congruence.
Qed.

Lemma cut_Some (sep : ascii) (s a b : string) :
  GoStrings.cut sep s = Some (a, b) ->
  s = a +:+ String sep b /\ GoStrings.Count a sep = 0
  /\ GoStrings.Count s sep = S (GoStrings.Count b sep).
Proof.
  revert a. induction s as [|c s IH]; intros a; simpl; [discriminate |].
  destruct (Ascii.eqb c sep) eqn:E.
  - apply Ascii.eqb_eq in E. subst c. intros [= <- <-]. simpl. auto.
  - destruct (GoStrings.cut sep s) as [[a' b']|]; [| discriminate].
    intros [= <- <-]. destruct (IH a' eq_refl) as (-> & Ha & Hc).
    simpl. rewrite E. simpl. rewrite Ha.
    rewrite Count_append in *. simpl in *. repeat split; auto.
Qed.

Lemma cut_append (sep : ascii) (a b : string) :
  GoStrings.Count a sep = 0 ->
  GoStrings.cut sep (a +:+ String sep b) = Some (a, b).
Proof.
  induction a as [|c a IH]; simpl.
  - intros _. now rewrite Ascii.eqb_refl.
  - destruct (Ascii.eqb c sep); simpl; [discriminate |].
    intros H. now rewrite IH.
Qed.

Lemma genSplit_length (sep : ascii) (k : nat) (s : string) :
  List.length (GoStrings.genSplit sep k s) = S (Nat.min k (GoStrings.Count s sep)).
Proof.
  revert s. induction k as [|k IH]; intros s; simpl; [reflexivity |].
  destruct (GoStrings.cut sep s) as [[a b]|] eqn:E.
  - apply cut_Some in E as (_ & _ & ->). simpl. now rewrite IH.
  - apply cut_None in E. rewrite E. reflexivity.
Qed.

Lemma genSplit_Join (sep : ascii) (k : nat) (s : string) :
  GoStrings.Join (GoStrings.genSplit sep k s) (String sep EmptyString) = s.
Proof.
  revert s. induction k as [|k IH]; intros s; simpl; [reflexivity |].
  destruct (GoStrings.cut sep s) as [[a b]|] eqn:E; [| reflexivity].
  apply cut_Some in E as (-> & _ & _).
  specialize (IH b).
  destruct (GoStrings.genSplit sep k b) as [|x l] eqn:G.
  - pose proof (genSplit_length sep k b) as HL. rewrite G in HL. discriminate.
  - cbn [GoStrings.Join]. cbn [GoStrings.Join] in IH. rewrite IH. reflexivity.
Qed.

(** ** The ARN codec *)

Lemma HasPrefix_arn (r : string) : GoStrings.HasPrefix ("arn:" +:+ r) "arn:" = true.
Proof. unfold GoStrings.HasPrefix. apply prefix_append. now exists r. Qed.

(** After the prefix, [Parse] cuts four more times. *)
Lemma Parse_prefixed (r : string) :
  arn.Parse ("arn:" +:+ r) =
    match GoStrings.genSplit ":" 4 r with
    | [p; sv; rg; acc; res] => (arn.mkARN p sv rg acc res, None)
    | _ => (arn.zero, Some arn_invalidSections)
    end.
Proof.
  unfold arn.Parse, arn.arnPrefix. rewrite (HasPrefix_arn r). reflexivity.
Qed.

Lemma Parse_no_prefix (s : string) :
  GoStrings.HasPrefix s "arn:" = false ->
  arn.Parse s = (arn.zero, Some arn_invalidPrefix).
Proof. intros H. unfold arn.Parse, arn.arnPrefix. now rewrite H. Qed.

Lemma list_length5 {A : Type} (l : list A) :
  List.length l = 5 -> exists a b c d e, l = [a; b; c; d; e].
Proof.
  destruct l as [|a [|b [|c [|d [|e [|f l]]]]]]; try discriminate.
  intros _. now exists a, b, c, d, e.
Qed.

Lemma Parse_enough_sections (r : string) :
  4 <= GoStrings.Count r ":" ->
  exists a, arn.Parse ("arn:" +:+ r) = (a, None)
            /\ arn.String_ a = "arn:" +:+ r.
Proof.
  intros H. rewrite Parse_prefixed.
  pose proof (genSplit_length ":" 4 r) as HL.
  rewrite Nat.min_l in HL by exact H.
  destruct (list_length5 _ HL) as (p & sv & rg & acc & res & E).
  rewrite E. eexists; split; [reflexivity |].
  pose proof (genSplit_Join ":" 4 r) as HJ. rewrite E in HJ.
  unfold arn.String_, arn.arnPrefix. cbn [arn.Partition arn.Service arn.Region
    arn.AccountID arn.Resource]. cbn [GoStrings.Join] in HJ.
  rewrite <- HJ. reflexivity.
Qed.

Lemma Parse_few_sections (r : string) :
  GoStrings.Count r ":" < 4 ->
  arn.Parse ("arn:" +:+ r) = (arn.zero, Some arn_invalidSections).
Proof.
  intros H. rewrite Parse_prefixed.
  pose proof (genSplit_length ":" 4 r) as HL.
  rewrite Nat.min_r in HL by lia.
  destruct (GoStrings.genSplit ":" 4 r) as [|a [|b [|c [|d [|e [|f l]]]]]];
    simpl in HL; try reflexivity; lia.
Qed.

Lemma segments_prefixed (r : string) :
  segments ("arn:" +:+ r) = 2 + GoStrings.Count r ":".
Proof. reflexivity. Qed.

(** Stringification always yields something [Parse] accepts; the fields
    come back as they were when the first four hold no colon. *)
Lemma String_parses (id : arn.ARN) : snd (arn.Parse (arn.String_ id)) = None.
Proof.
  unfold arn.String_, arn.arnPrefix.
  destruct (Parse_enough_sections
              (arn.Partition id +:+ ":" +:+ arn.Service id +:+ ":" +:+ arn.Region id
                 +:+ ":" +:+ arn.AccountID id +:+ ":" +:+ arn.Resource id))
    as (a & Ha & _).
  - repeat (rewrite Count_append; simpl). lia.
  - now rewrite Ha.
Qed.

Lemma Parse_String_colonFree (id : arn.ARN) :
  colonFree (arn.Partition id) -> colonFree (arn.Service id) ->
  colonFree (arn.Region id) -> colonFree (arn.AccountID id) ->
  arn.Parse (arn.String_ id) = (id, None).
Proof.
  unfold colonFree. intros Hp Hs Hr Ha.
  unfold arn.String_, arn.arnPrefix. rewrite Parse_prefixed.
  destruct id as [p sv rg acc res]; simpl in *.
  change (":" +:+ ?x) with (String ":" x).
  cbn [GoStrings.genSplit].
  rewrite (cut_append ":" p) by exact Hp.
  rewrite (cut_append ":" sv) by exact Hs.
  rewrite (cut_append ":" rg) by exact Hr.
  rewrite (cut_append ":" acc) by exact Ha.
  reflexivity.
Qed.

Lemma HasPrefix_cases (s : string) :
  (exists r, s = "arn:" +:+ r /\ GoStrings.HasPrefix s "arn:" = true)
  \/ GoStrings.HasPrefix s "arn:" = false.
Proof.
  destruct (GoStrings.HasPrefix s "arn:") eqn:E; [left | now right].
  unfold GoStrings.HasPrefix in E. apply prefix_append in E as [r ->].
  now exists r.
Qed.

(** C4, as the claim states its second half: it fails on a structure
    whose account field holds a colon.  The string of that structure is
    cut at the first five colons, so the colon of the account field ends
    the account and the resource takes what is left. *)
Lemma ParseARN_String_not_identity :
  let id := arn.mkARN "aws" "iam" "" "0000:1111" "role/skunk" in
  ARN_String id = "arn:aws:iam::0000:1111:role/skunk"
  /\ ParseARN (ARN_String id)
     = (arn.mkARN "aws" "iam" "" "0000" "1111:role/skunk", None)
  /\ ParseARN (ARN_String id) <> (id, None).
Proof.
  cbv zeta. repeat split; [reflexivity.. | discriminate].
Qed.

(** C4 (amended): the codec round-trips in both directions.  A string
    with the [arn:] prefix and six colon-delimited segments at least is
    parsed, and the result stringifies to the same string.  The string of
    every structure is parsed without error, and the parse gives the
    structure back when its partition, service, region and account fields
    hold no colon (as those of every parsed structure do). *)
Theorem ParseARN_String_roundtrip (s : string) (id : ARN) :
  (GoStrings.HasPrefix s "arn:" = true -> 6 <= segments s ->
     exists a, ParseARN s = (a, None) /\ ARN_String a = s)
  /\ snd (ParseARN (ARN_String id)) = None
  /\ (colonFree (arn.Partition id) -> colonFree (arn.Service id) ->
      colonFree (arn.Region id) -> colonFree (arn.AccountID id) ->
      ParseARN (ARN_String id) = (id, None)).
Proof.
  unfold ParseARN, ARN_String. split; [| split].
  - intros Hp Hs. destruct (HasPrefix_cases s) as [(r & -> & _) | Hn];
      [| congruence].
    rewrite segments_prefixed in Hs. apply Parse_enough_sections. lia.
  - apply String_parses.
  - apply Parse_String_colonFree.
Qed.

Lemma ParseARN_String_roundtrip_witness :
  (exists a, ParseARN "arn:aws:iam::000000000000:role/skunk" = (a, None)
             /\ ARN_String a = "arn:aws:iam::000000000000:role/skunk")
  /\ ParseARN (ARN_String (arn.mkARN "aws" "iam" "" "000000000000" "role:skunk"))
     = (arn.mkARN "aws" "iam" "" "000000000000" "role:skunk", None).
Proof.
  split.
  - apply (proj1 (ParseARN_String_roundtrip
                    "arn:aws:iam::000000000000:role/skunk" arn.zero));
      [reflexivity | vm_compute; lia].
  - apply (proj2 (proj2 (ParseARN_String_roundtrip
                    "" (arn.mkARN "aws" "iam" "" "000000000000" "role:skunk"))));
      reflexivity.
Defined.

(** C5: [ParseARN] fails, with one of the two errors of a malformed
    identifier, exactly when the string lacks the [arn:] prefix or has
    fewer than six colon-delimited segments, and succeeds otherwise; the
    string [arn:::::] is accepted and [iNv@LiD] is rejected. *)
Theorem ParseARN_malformed_iff (s : string) :
  (MalformedIdentifier (snd (ParseARN s))
     <-> GoStrings.HasPrefix s "arn:" = false \/ segments s < 6)
  /\ (snd (ParseARN s) = None
     <-> GoStrings.HasPrefix s "arn:" = true /\ 6 <= segments s)
  /\ ParseARN "arn:::::" = (arn.mkARN "" "" "" "" "", None)
  /\ MalformedIdentifier (snd (ParseARN "iNv@LiD")).
Proof.
  unfold MalformedIdentifier.
  assert (Hcases :
    (snd (ParseARN s) = None /\ GoStrings.HasPrefix s "arn:" = true
       /\ 6 <= segments s)
    \/ ((snd (ParseARN s) = Some arn_invalidPrefix
         \/ snd (ParseARN s) = Some arn_invalidSections)
        /\ (GoStrings.HasPrefix s "arn:" = false \/ segments s < 6))).
  { unfold ParseARN. destruct (HasPrefix_cases s) as [(r & -> & Hp) | Hn].
    - rewrite segments_prefixed.
      destruct (Nat.le_gt_cases 4 (GoStrings.Count r ":")) as [Hc | Hc].
      + left. destruct (Parse_enough_sections r Hc) as (a & -> & _).
        repeat split; [exact Hp | lia].
      + right. rewrite (Parse_few_sections r Hc). split; [now right | right; lia].
    - right. rewrite (Parse_no_prefix s Hn). split; [now left | now left]. }
  split; [| split; [| split]].
  - destruct Hcases as [(Hok & Hp & Hs) | (Herr & Hwhy)].
    + rewrite Hok, Hp. split; [intros [?|?]; discriminate | intros [?|?]; [discriminate | lia]].
    + tauto.
  - destruct Hcases as [(Hok & Hp & Hs) | (Herr & Hwhy)].
    + tauto.
    + split.
      * intros Hnone. rewrite Hnone in Herr. destruct Herr; discriminate.
      * intros [Hp Hs]. destruct Hwhy; [congruence | lia].
  - reflexivity.
  - left. reflexivity.
Qed.

(** ** ConfigFormat *)

Lemma TrimPrefix_dot_inv (ext e : string) :
  GoStrings.TrimPrefix ext "." = e -> ext = e \/ ext = String "." e.
Proof.
  unfold GoStrings.TrimPrefix, GoStrings.HasPrefix.
  destruct (String.prefix "." ext) eqn:E.
  - apply prefix_append in E as [r ->]. simpl. intros <-. now right.
  - now left.
Qed.

(** C9: [FromExt] is total; on [json], [toml], [yaml] and [yml], with or
    without the leading dot, [FromExt] followed by [String] gives [json],
    [toml], [yaml] and [yaml]; on every other string, the empty one
    included, [FromExt] gives [Unknown], whose [String] is [UNKNOWN]. *)
Theorem FromExt_String_stable (ext : string) :
  (ext = "json" \/ ext = ".json" ->
     FromExt ext = JSON /\ ConfigFormat_String (FromExt ext) = "json")
  /\ (ext = "toml" \/ ext = ".toml" ->
     FromExt ext = TOML /\ ConfigFormat_String (FromExt ext) = "toml")
  /\ (ext = "yaml" \/ ext = ".yaml" \/ ext = "yml" \/ ext = ".yml" ->
     FromExt ext = YAML /\ ConfigFormat_String (FromExt ext) = "yaml")
  /\ (ext <> "json" -> ext <> ".json" -> ext <> "toml" -> ext <> ".toml" ->
      ext <> "yaml" -> ext <> ".yaml" -> ext <> "yml" -> ext <> ".yml" ->
     FromExt ext = Unknown /\ ConfigFormat_String (FromExt ext) = "UNKNOWN")
  /\ FromExt "" = Unknown
  /\ ConfigFormat_String Unknown = "UNKNOWN".
Proof.
  split; [| split; [| split; [| split; [| split]]]].
  - intros [-> | ->]; split; reflexivity.
  - intros [-> | ->]; split; reflexivity.
  - intros [-> | [-> | [-> | ->]]]; split; reflexivity.
  - intros H1 H2 H3 H4 H5 H6 H7 H8.
    assert (HU : FromExt ext = Unknown); [| rewrite HU; split; reflexivity].
    unfold FromExt; cbv zeta.
    destruct (String.eqb (GoStrings.TrimPrefix ext ".") "json") eqn:E1;
      [apply String.eqb_eq, TrimPrefix_dot_inv in E1; tauto |].
    destruct (String.eqb (GoStrings.TrimPrefix ext ".") "toml") eqn:E2;
      [apply String.eqb_eq, TrimPrefix_dot_inv in E2; tauto |].
    destruct (String.eqb (GoStrings.TrimPrefix ext ".") "yaml") eqn:E3;
      [apply String.eqb_eq, TrimPrefix_dot_inv in E3; tauto |].
    destruct (String.eqb (GoStrings.TrimPrefix ext ".") "yml") eqn:E4;
      [apply String.eqb_eq, TrimPrefix_dot_inv in E4; tauto |].
    reflexivity.
  - reflexivity.
  - reflexivity.
Qed.

Lemma FromExt_String_stable_witness :
  ConfigFormat_String (FromExt ".json") = "json"
  /\ ConfigFormat_String (FromExt "toml") = "toml"
  /\ ConfigFormat_String (FromExt ".yml") = "yaml"
  /\ ConfigFormat_String (FromExt "ini") = "UNKNOWN".
Proof.
  split; [| split; [| split]].
  - apply (proj1 (FromExt_String_stable ".json")). now right.
  - apply (proj1 (proj2 (FromExt_String_stable "toml"))). now left.
  - apply (proj1 (proj2 (proj2 (FromExt_String_stable ".yml")))). tauto.
  - apply (proj1 (proj2 (proj2 (proj2 (FromExt_String_stable "ini")))));
      discriminate.
Defined.

(** ** The order of aliases *)

Lemma Ascii_compare_Lt (a b : ascii) :
  Ascii.compare a b = Lt <-> (N_of_ascii a < N_of_ascii b)%N.
Proof. unfold Ascii.compare. apply N.compare_lt_iff. Qed.

Lemma Ascii_compare_Eq (a b : ascii) : Ascii.compare a b = Eq <-> a = b.
Proof.
  split; [apply Ascii.compare_eq_iff |].
  intros ->. unfold Ascii.compare. apply N.compare_refl.
Qed.

Lemma String_compare_refl (s : string) : String.compare s s = Eq.
Proof.
  induction s as [|c s IH]; simpl; [reflexivity |].
  now rewrite (proj2 (Ascii_compare_Eq c c) eq_refl).
Qed.

Lemma String_compare_Lt_trans (a b c : string) :
  String.compare a b = Lt -> String.compare b c = Lt -> String.compare a c = Lt.
Proof.
  revert b c. induction a as [|x a IH]; intros [|y b] [|z c]; simpl;
    try discriminate; try reflexivity.
  destruct (Ascii.compare x y) eqn:Exy; try discriminate;
    destruct (Ascii.compare y z) eqn:Eyz; try discriminate; intros Hab Hbc.
  - apply Ascii_compare_Eq in Exy. apply Ascii_compare_Eq in Eyz. subst.
    rewrite (proj2 (Ascii_compare_Eq z z) eq_refl). eauto.
  - apply Ascii_compare_Eq in Exy. subst. now rewrite Eyz.
  - apply Ascii_compare_Eq in Eyz. subst. now rewrite Exy.
  - pose proof (proj1 (Ascii_compare_Lt x y) Exy) as Hxy.
    pose proof (proj1 (Ascii_compare_Lt y z) Eyz) as Hyz.
    assert (H : Ascii.compare x z = Lt) by (apply Ascii_compare_Lt; lia).
    now rewrite H.
Qed.

Lemma ltb_asym (a b : string) : String.ltb a b = true -> String.ltb b a = false.
Proof.
  unfold String.ltb. rewrite (String.compare_antisym b a).
  destruct (String.compare a b); simpl; congruence.
Qed.

Lemma ltb_irrefl (a : string) : String.ltb a a = false.
Proof. unfold String.ltb. now rewrite String_compare_refl. Qed.

Lemma notBelow_trans (a b c : Role) : notBelow a b -> notBelow b c -> notBelow a c.
Proof.
  unfold notBelow, String.ltb. intros Hab Hbc.
  destruct (String.compare (Alias a) (Alias c)) eqn:Eac; try reflexivity.
  destruct (String.compare (Alias a) (Alias b)) eqn:Eab; try discriminate.
  - apply String.compare_eq_iff in Eab. rewrite Eab in Eac. now rewrite Eac in Hbc.
  - destruct (String.compare (Alias b) (Alias c)) eqn:Ebc; try discriminate.
    + apply String.compare_eq_iff in Ebc. rewrite <- Ebc in Eac. congruence.
    + rewrite String.compare_antisym in Eab, Ebc.
      destruct (String.compare (Alias b) (Alias a)) eqn:Eba; try discriminate.
      destruct (String.compare (Alias c) (Alias b)) eqn:Ecb; try discriminate.
      pose proof (String_compare_Lt_trans _ _ _ Ecb Eba) as Hca.
      rewrite String.compare_antisym, Hca in Eac. discriminate.
Qed.

(** ** [sort.Slice]: a sorted permutation *)

Lemma insert_Permutation (less : Role -> Role -> bool) (x : Role) (l : list Role) :
  Permutation (x :: l) (insert less x l).
Proof.
  induction l as [|y l IH]; simpl; [reflexivity |].
  destruct (less x y); [reflexivity |].
  rewrite perm_swap. now apply perm_skip.
Qed.

Lemma fold_insert_Permutation (less : Role -> Role -> bool) (l acc : list Role) :
  Permutation (l ++ acc) (fold_left (fun acc x => insert less x acc) l acc).
Proof.
  revert acc. induction l as [|x l IH]; intros acc; simpl; [reflexivity |].
  rewrite <- IH. rewrite <- insert_Permutation.
  now rewrite Permutation_middle.
Qed.

Lemma sort_Slice_Permutation (less : Role -> Role -> bool) (l : list Role) :
  Permutation l (sort_Slice less l).
Proof.
  unfold sort_Slice. rewrite <- fold_insert_Permutation.
  now rewrite app_nil_r.
Qed.

Lemma insert_sorted (x : Role) (l : list Role) :
  sortedDescending l -> sortedDescending (insert aliasGreater x l).
Proof.
  unfold sortedDescending.
  induction l as [|y l IH]; simpl; intros Hs.
  - repeat constructor.
  - apply StronglySorted_inv in Hs as [Hl Hy].
    unfold aliasGreater, GetAlias. destruct (String.ltb (Alias y) (Alias x)) eqn:E.
    + constructor; [now constructor |].
      assert (Hxy : notBelow x y) by (now apply ltb_asym).
      constructor; [exact Hxy |].
      eapply Forall_impl; [exact Hy |]. intros z Hz.
      eapply notBelow_trans; eauto.
    + constructor; [now apply IH |].
      eapply Permutation_Forall; [apply insert_Permutation |].
      constructor; [exact E | exact Hy].
Qed.

Lemma fold_insert_sorted (l acc : list Role) :
  sortedDescending acc ->
  sortedDescending (fold_left (fun acc x => insert aliasGreater x acc) l acc).
Proof.
  revert acc. induction l as [|x l IH]; intros acc Hacc; simpl; [exact Hacc |].
  apply IH. now apply insert_sorted.
Qed.

Lemma sort_Slice_sorted (l : list Role) :
  sortedDescending (sort_Slice aliasGreater l).
Proof. apply fold_insert_sorted. constructor. Qed.

(** With pairwise different aliases there is one sorted arrangement:
    every sorting method returns what [sort_Slice] returns. *)
Lemma sorted_perm_unique (l1 l2 : list Role) :
  NoDup (map Alias l1) -> Permutation l1 l2 ->
  sortedDescending l1 -> sortedDescending l2 -> l1 = l2.
Proof.
  unfold sortedDescending. revert l2.
  induction l1 as [|x l1 IH]; intros l2 Hnd Hp Hs1 Hs2.
  - apply Permutation_nil in Hp. now subst.
  - destruct l2 as [|y l2]; [apply Permutation_sym, Permutation_nil in Hp; discriminate |].
    apply StronglySorted_inv in Hs1 as [Hs1 Hx].
    apply StronglySorted_inv in Hs2 as [Hs2 Hy].
    simpl in Hnd. apply NoDup_cons in Hnd as [Hnx Hnd].
    assert (Hxy : x = y).
    { assert (Hin1 : In y (x :: l1))
        by (eapply Permutation_in; [apply Permutation_sym, Hp | now left]).
      assert (Hin2 : In x (y :: l2))
        by (eapply Permutation_in; [apply Hp | now left]).
      destruct Hin1 as [|Hin1]; [assumption |].
      destruct Hin2 as [|Hin2]; [now subst |].
      rewrite Forall_forall in Hx, Hy.
      apply list_elem_of_In in Hin1, Hin2.
      pose proof (Hx y Hin1) as Hxy. pose proof (Hy x Hin2) as Hyx.
      unfold notBelow, String.ltb in Hxy, Hyx.
      rewrite String.compare_antisym in Hyx.
      destruct (String.compare (Alias x) (Alias y)) eqn:E; try discriminate.
      apply String.compare_eq_iff in E. exfalso. apply Hnx.
      rewrite E. apply list_elem_of_In, in_map, list_elem_of_In. exact Hin1. }
    subst y. f_equal. apply IH; auto.
    eapply Permutation_cons_inv; eauto.
Qed.

(** ** The registry *)

Lemma firstByAlias_None (alias : string) (roles : list Role) :
  firstByAlias alias roles = None <-> ~ In alias (map Alias roles).
Proof.
  induction roles as [|r roles IH]; simpl; [tauto |].
  unfold GetAlias. destruct (String.eqb (Alias r) alias) eqn:E.
  - apply String.eqb_eq in E. split; [discriminate | tauto].
  - apply String.eqb_neq in E. rewrite IH. tauto.
Qed.

Lemma firstByAlias_Some (alias : string) (roles : list Role) :
  In alias (map Alias roles) -> exists r, firstByAlias alias roles = Some r.
Proof.
  intros Hin. destruct (firstByAlias alias roles) as [r|] eqn:E; [now exists r |].
  apply firstByAlias_None in E. contradiction.
Qed.

(** [AddRole] on a free alias: the sorted arrangement of the old roles
    and the new one. *)
Lemma AddRole_free (r : Role) (c : Config) :
  ~ In (Alias r) (aliases c) ->
  AddRole r c = (SetRoles (sort_Slice aliasGreater (Roles c ++ [r])) c, None).
Proof.
  intros Hfree. unfold AddRole, GetRoleByAlias, GetAlias.
  apply firstByAlias_None in Hfree. now rewrite Hfree.
Qed.

Lemma AddRole_taken (r : Role) (c : Config) :
  In (Alias r) (aliases c) -> AddRole r c = (c, Some (ErrRoleExists (Alias r))).
Proof.
  intros Hin. unfold AddRole, GetRoleByAlias, GetAlias.
  destruct (firstByAlias_Some _ _ Hin) as [x ->]. reflexivity.
Qed.

(** The index loop of [RemoveRoleByAlias] and the removal of the
    specification find the same role. *)
Lemma firstIndexByAlias_spec (alias : string) (l : list Role) (i : nat) :
  match firstIndexByAlias alias l i, spec_removeByAlias alias l with
  | Some j, Some l' =>
      i <= j /\ j - i < List.length l /\ l' = take (j - i) l ++ drop (S (j - i)) l
  | None, None => True
  | _, _ => False
  end.
Proof.
  revert i. induction l as [|r l IH]; intros i; simpl; [exact I |].
  unfold GetAlias. destruct (String.eqb (Alias r) alias).
  - rewrite Nat.sub_diag. simpl. rewrite drop_0. repeat split; lia.
  - specialize (IH (S i)).
    destruct (firstIndexByAlias alias l (S i)) as [j|],
             (spec_removeByAlias alias l) as [l'|]; try exact IH.
    destruct IH as (Hle & Hlt & ->).
    replace (j - i) with (S (j - S i)) by lia. simpl.
    repeat split; lia.
Qed.

(** The slice expression of [RemoveRoleByAlias] drops the element at
    index [i]. *)
Lemma copy_slice (l : list Role) (i : nat) :
  i < List.length l ->
  (let '(moved, n) := copy (drop i l) (drop (S i) l) in
   take (i + n) (take i l ++ moved)) = take i l ++ drop (S i) l.
Proof.
  intros Hi. unfold copy.
  rewrite !length_drop.
  replace (Nat.min (List.length l - i) (List.length l - S i))
    with (List.length l - S i) by lia.
  rewrite (take_ge (drop (S i) l)) by (rewrite length_drop; lia).
  rewrite app_assoc.
  apply take_app_length'.
  rewrite length_app, length_take, length_drop. lia.
Qed.

Lemma RemoveRoleByAlias_spec (alias : string) (c : Config) :
  RemoveRoleByAlias alias c =
    match spec_removeByAlias alias (Roles c) with
    | Some rest => (SetRoles rest c, None)
    | None => (c, Some (ErrRoleNotFound alias))
    end.
Proof.
  unfold RemoveRoleByAlias, GetRoles.
  pose proof (firstIndexByAlias_spec alias (Roles c) 0) as H.
  destruct (firstIndexByAlias alias (Roles c) 0) as [j|],
           (spec_removeByAlias alias (Roles c)) as [l'|]; try contradiction;
    [| reflexivity].
  destruct H as (_ & Hlt & ->). rewrite Nat.sub_0_r in *.
  pose proof (copy_slice (Roles c) j Hlt) as Hc.
  destruct (copy (drop j (Roles c)) (drop (S j) (Roles c))) as [moved n].
  now rewrite Hc.
Qed.

Lemma spec_removeByAlias_None (alias : string) (l : list Role) :
  spec_removeByAlias alias l = None <-> ~ In alias (map Alias l).
Proof.
  induction l as [|r l IH]; simpl; [tauto |].
  destruct (String.eqb (Alias r) alias) eqn:E.
  - apply String.eqb_eq in E. split; [discriminate | tauto].
  - apply String.eqb_neq in E.
    destruct (spec_removeByAlias alias l) as [rest|].
    + split; [discriminate |]. intros Hn.
      assert (Hl : ~ In alias (map Alias l)) by tauto.
      apply IH in Hl. discriminate.
    + split; [| reflexivity].
      intros _ [H|H]; [tauto | exact (proj1 IH eq_refl H)].
Qed.

Lemma spec_removeByAlias_split (alias : string) (l1 l2 : list Role) (x : Role) :
  ~ In alias (map Alias l1) -> Alias x = alias ->
  spec_removeByAlias alias (l1 ++ x :: l2) = Some (l1 ++ l2).
Proof.
  intros Hnot Hx. induction l1 as [|r l1 IH]; simpl.
  - rewrite Hx, String.eqb_refl. reflexivity.
  - simpl in Hnot. destruct (String.eqb (Alias r) alias) eqn:E.
    + apply String.eqb_eq in E. tauto.
    + rewrite IH by tauto. reflexivity.
Qed.

Lemma spec_removeByAlias_sublist (alias : string) (l l' : list Role) :
  spec_removeByAlias alias l = Some l' -> sublist l' l.
Proof.
  revert l'. induction l as [|r l IH]; intros l'; simpl; [discriminate |].
  destruct (String.eqb (Alias r) alias).
  - intros [= <-]. now apply sublist_cons.
  - destruct (spec_removeByAlias alias l) as [rest|]; [| discriminate].
    intros [= <-]. apply sublist_skip. now apply IH.
Qed.

(** On a registry with unique aliases the outcome of [AddRole] does not
    depend on the sorting method: it is the one sorted arrangement of
    the old roles and the new one. *)
Lemma AddRole_result_canonical (r : Role) (c : Config) (l : list Role) :
  uniqueAliases c -> ~ In (Alias r) (aliases c) ->
  Permutation (Roles c ++ [r]) l -> sortedDescending l ->
  l = sort_Slice aliasGreater (Roles c ++ [r]).
Proof.
  unfold uniqueAliases, aliases. intros Hu Hfree Hp Hs.
  assert (Hnd : NoDup (map Alias (Roles c ++ [r]))).
  { rewrite map_app. simpl. apply NoDup_app. split; [exact Hu | split].
    - intros x Hx Hx'. apply list_elem_of_singleton in Hx'. subst x.
      apply Hfree. now apply list_elem_of_In.
    - apply NoDup_singleton. }
  apply sorted_perm_unique; [| | exact Hs | apply sort_Slice_sorted].
  - apply NoDup_ListNoDup.
    eapply Permutation_NoDup; [apply Permutation_map, Hp |].
    now apply NoDup_ListNoDup.
  - rewrite <- Hp. apply sort_Slice_Permutation.
Qed.

(** C6: [AddRole] of a role whose alias is already in the registry fails
    with [ErrRoleExists] and returns the registry as it was; on a free
    alias it succeeds, and the resulting roles are the old ones and the
    new one, sorted descending by alias. *)
Theorem AddRole_exists_or_sorted (r : Role) (c : Config) :
  (In (Alias r) (aliases c) ->
     AddRole r c = (c, Some (ErrRoleExists (Alias r))))
  /\ (~ In (Alias r) (aliases c) ->
      exists c', AddRole r c = (c', None)
                 /\ sortedDescending (Roles c')
                 /\ Permutation (Roles c ++ [r]) (Roles c')
                 /\ Path c' = Path c /\ Format c' = Format c).
Proof.
  split.
  - apply AddRole_taken.
  - intros Hfree. rewrite (AddRole_free r c Hfree).
    eexists; split; [reflexivity |]. simpl. repeat split.
    + apply sort_Slice_sorted.
    + apply sort_Slice_Permutation.
Qed.

Lemma AddRole_exists_or_sorted_witness :
  AddRole skunk2 cfgTwo = (cfgTwo, Some (ErrRoleExists "skunk"))
  /\ exists c', AddRole zebra cfgTwo = (c', None)
                /\ sortedDescending (Roles c')
                /\ Permutation (Roles cfgTwo ++ [zebra]) (Roles c')
                /\ Path c' = Path cfgTwo /\ Format c' = Format cfgTwo.
Proof.
  split.
  - apply (proj1 (AddRole_exists_or_sorted skunk2 cfgTwo)). simpl. now left.
  - apply (proj2 (AddRole_exists_or_sorted zebra cfgTwo)). simpl.
    intros [H | [H | H]]; [discriminate H | discriminate H | exact H].
Defined.

(** C7: [UpdateRoleByAlias] is [RemoveRoleByAlias] followed by an append
    at the end, with no sort: the first role under the alias goes, the
    others keep their order and the new role comes last; it agrees with
    the update of the specification.  Without a role under the alias it
    fails with [ErrRoleNotFound] and returns the registry as it was. *)
Theorem UpdateRoleByAlias_remove_then_append
    (alias : string) (r : Role) (c : Config) :
  (forall c1, RemoveRoleByAlias alias c = (c1, None) ->
     UpdateRoleByAlias alias r c = (SetRoles (Roles c1 ++ [r]) c1, None))
  /\ (forall l1 x l2,
        Roles c = l1 ++ x :: l2 -> ~ In alias (map Alias l1) -> Alias x = alias ->
        UpdateRoleByAlias alias r c = (SetRoles (l1 ++ l2 ++ [r]) c, None))
  /\ (~ In alias (aliases c) ->
        RemoveRoleByAlias alias c = (c, Some (ErrRoleNotFound alias))
        /\ UpdateRoleByAlias alias r c = (c, Some (ErrRoleNotFound alias)))
  /\ UpdateRoleByAlias alias r c =
       match spec_updateByAlias alias r (Roles c) with
       | Some roles => (SetRoles roles c, None)
       | None => (c, Some (ErrRoleNotFound alias))
       end.
Proof.
  split; [| split; [| split]].
  - intros c1 H. unfold UpdateRoleByAlias. now rewrite H.
  - intros l1 x l2 Hroles Hnot Hx. unfold UpdateRoleByAlias.
    rewrite RemoveRoleByAlias_spec, Hroles.
    rewrite (spec_removeByAlias_split alias l1 l2 x Hnot Hx).
    unfold SetRoles. simpl. now rewrite <- app_assoc.
  - intros Hnot. apply spec_removeByAlias_None in Hnot.
    unfold UpdateRoleByAlias. rewrite RemoveRoleByAlias_spec, Hnot. now split.
  - unfold UpdateRoleByAlias, spec_updateByAlias.
    rewrite RemoveRoleByAlias_spec.
    destruct (spec_removeByAlias alias (Roles c)); reflexivity.
Qed.

(** Update of [otter] by [zebra] in the registry [skunk; otter]: the
    result [skunk; zebra] is in the order of the append, not sorted. *)
Lemma UpdateRoleByAlias_remove_then_append_witness :
  UpdateRoleByAlias "otter" zebra cfgTwo
    = (mkConfig "cfg" YAML [skunk; zebra], None)
  /\ ~ sortedDescending [skunk; zebra]
  /\ UpdateRoleByAlias "zebra" zebra cfgTwo
     = (cfgTwo, Some (ErrRoleNotFound "zebra")).
Proof.
  split; [| split].
  - apply (proj1 (UpdateRoleByAlias_remove_then_append "otter" zebra cfgTwo)
             (mkConfig "cfg" YAML [skunk])).
    reflexivity.
  - intros H. apply StronglySorted_inv in H as [_ H].
    apply Forall_inv in H. discriminate H.
  - apply (proj1 (proj2 (proj2
             (UpdateRoleByAlias_remove_then_append "zebra" zebra cfgTwo)))).
    simpl. intros [H | [H | H]]; [discriminate H | discriminate H | exact H].
Defined.

(** ** Uniqueness of aliases *)

Lemma sublist_map {A B : Type} (f : A -> B) (l1 l2 : list A) :
  sublist l1 l2 -> sublist (map f l1) (map f l2).
Proof. induction 1; simpl; constructor; auto. Qed.

Lemma AddRole_unique (r : Role) (c c' : Config) :
  uniqueAliases c -> AddRole r c = (c', None) -> uniqueAliases c'.
Proof.
  unfold uniqueAliases, aliases. intros Hu Hadd.
  destruct (in_dec string_dec (Alias r) (aliases c)) as [Hin | Hfree].
  - rewrite (AddRole_taken r c Hin) in Hadd. discriminate.
  - rewrite (AddRole_free r c Hfree) in Hadd. injection Hadd as <-. simpl.
    apply NoDup_ListNoDup.
    eapply Permutation_NoDup;
      [apply Permutation_map, sort_Slice_Permutation |].
    apply NoDup_ListNoDup. rewrite map_app. simpl.
    apply NoDup_app. split; [exact Hu | split].
    + intros x Hx Hx'. apply list_elem_of_singleton in Hx'. subst x.
      apply Hfree. now apply list_elem_of_In.
    + apply NoDup_singleton.
Qed.

Lemma RemoveRoleByAlias_unique (alias : string) (c c' : Config) :
  uniqueAliases c -> RemoveRoleByAlias alias c = (c', None) -> uniqueAliases c'.
Proof.
  unfold uniqueAliases, aliases. intros Hu Hrm.
  rewrite RemoveRoleByAlias_spec in Hrm.
  destruct (spec_removeByAlias alias (Roles c)) as [rest|] eqn:E; [| discriminate].
  injection Hrm as <-. simpl.
  eapply sublist_NoDup; [exact Hu |].
  apply sublist_map. now apply (spec_removeByAlias_sublist alias).
Qed.

(** [UpdateRoleByAlias] keeps the aliases unique when the new role takes
    an alias that is free once the replaced role has gone. *)
Lemma UpdateRoleByAlias_unique (alias : string) (r : Role) (c c' : Config) :
  uniqueAliases c -> UpdateRoleByAlias alias r c = (c', None) ->
  Alias r = alias \/ ~ In (Alias r) (aliases c) ->
  uniqueAliases c'.
Proof.
  unfold uniqueAliases, aliases. intros Hu Hup Hfree.
  unfold UpdateRoleByAlias in Hup. rewrite RemoveRoleByAlias_spec in Hup.
  destruct (spec_removeByAlias alias (Roles c)) as [rest|] eqn:E; [| discriminate].
  injection Hup as <-. simpl. rewrite map_app. simpl.
  pose proof (spec_removeByAlias_sublist _ _ _ E) as Hsub.
  apply NoDup_app. split; [| split].
  - eapply sublist_NoDup; [exact Hu |]. now apply sublist_map.
  - intros x Hx Hx'. apply list_elem_of_singleton in Hx'. subst x.
    destruct Hfree as [Heq | Hnot].
    + (* the alias of the replaced role: it occurred once *)
      clear Hsub. revert rest E Hx Hu. generalize (Roles c) as l.
      induction l as [|y l IH]; intros rest E Hx Hu; simpl in *; [discriminate |].
      apply NoDup_cons in Hu as [Hy Hu].
      destruct (String.eqb (Alias y) alias) eqn:Ey.
      * apply String.eqb_eq in Ey. injection E as <-.
        apply Hy. now rewrite Ey, <- Heq.
      * destruct (spec_removeByAlias alias l) as [rest'|] eqn:E'; [| discriminate].
        injection E as <-. simpl in Hx. apply elem_of_cons in Hx as [Hx | Hx].
        -- apply String.eqb_neq in Ey. congruence.
        -- eapply IH; eauto.
    + apply Hnot. apply list_elem_of_In.
      eapply elem_of_sublist; [exact Hx |].
      now apply sublist_map.
  - apply NoDup_singleton.
Qed.

(** C3, at the input the claim singles out.  The registry holds [skunk]
    and [otter]; the role under [otter] is replaced by one whose alias is
    [skunk].  The update succeeds and leaves two roles under the alias
    [skunk], of which [GetRoleByAlias] finds the first. *)
Theorem UpdateRoleByAlias_duplicates_alias :
  uniqueAliases cfgTwo
  /\ UpdateRoleByAlias "otter" skunk2 cfgTwo
     = (mkConfig "cfg" YAML [skunk; skunk2], None)
  /\ aliases (mkConfig "cfg" YAML [skunk; skunk2]) = ["skunk"; "skunk"]
  /\ ~ uniqueAliases (mkConfig "cfg" YAML [skunk; skunk2])
  /\ AddRole skunk2 cfgTwo = (cfgTwo, Some (ErrRoleExists "skunk")).
Proof.
  split; [| split; [| split; [| split]]].
  - unfold uniqueAliases. simpl. apply NoDup_cons. split.
    + intros H. apply list_elem_of_singleton in H. discriminate.
    + apply NoDup_singleton.
  - reflexivity.
  - reflexivity.
  - unfold uniqueAliases. simpl. intros H. apply NoDup_cons in H as [H _].
    apply H. now left.
  - reflexivity.
Qed.

(** ** The configuration store *)

Definition basePath (opts_Path : string) : string :=
  GoStrings.TrimSuffix opts_Path (GoPath.Ext opts_Path).

Lemma filePath_eq (c : Config) (format : ConfigFormat) :
  filePath c format = Path c +:+ "." +:+ ConfigFormat_String format.
Proof. reflexivity. Qed.

(** A probe that fails comes first: [NewConfig] returns its error, whatever
    the other files are. *)
Lemma NewConfig_probe_error (L : Libraries) (opts_Path : string) (fs : afero.Fs)
    (err : error) :
  afero.Exists fs (basePath opts_Path +:+ ".json") = (false, Some err) ->
  NewConfig L opts_Path fs
    = (fs, Err (ErrCheckFileExists (basePath opts_Path +:+ ".json") err)).
Proof.
  intros H. unfold NewConfig. cbv zeta.
  change (filePath _ JSON) with (basePath opts_Path +:+ ".json").
  now rewrite H.
Qed.

(** When the three existence probes return without error and two or
    three of them report a file, [NewConfig] fails with
    [ErrMultipleConfigs] and leaves the filesystem as it was. *)
Lemma NewConfig_multiple_configs (L : Libraries) (opts_Path : string)
    (fs : afero.Fs) (hasJSON hasYAML hasTOML : bool) :
  fileExists fs (basePath opts_Path +:+ ".json") hasJSON ->
  fileExists fs (basePath opts_Path +:+ ".yaml") hasYAML ->
  fileExists fs (basePath opts_Path +:+ ".toml") hasTOML ->
  (hasJSON = true /\ hasYAML = true) \/ (hasJSON = true /\ hasTOML = true)
    \/ (hasYAML = true /\ hasTOML = true) ->
  NewConfig L opts_Path fs = (fs, Err ErrMultipleConfigs).
Proof.
  unfold fileExists. intros Hj Hy Ht Htwo. unfold NewConfig. cbv zeta.
  change (filePath _ JSON) with (basePath opts_Path +:+ ".json").
  change (filePath _ YAML) with (basePath opts_Path +:+ ".yaml").
  change (filePath _ TOML) with (basePath opts_Path +:+ ".toml").
  rewrite Hj, Hy, Ht.
  destruct hasJSON, hasYAML, hasTOML; try reflexivity;
    destruct Htwo as [[? ?] | [[? ?] | [? ?]]]; discriminate.
Qed.

Lemma decodeInto_Ok (L : Libraries) (bytes : string) (cfg cfg' : Config) :
  decodeInto L bytes cfg = Ok cfg' ->
  Path cfg' = Path cfg /\ Format cfg' = Format cfg
  /\ (Format cfg = JSON \/ Format cfg = YAML \/ Format cfg = TOML).
Proof.
  unfold decodeInto, GetFormat. cbv zeta.
  destruct (Z.eqb_spec (Format cfg) JSON) as [Hj|_].
  { destruct (json_Unmarshal L bytes (Roles cfg)) as [roles [e|]];
      intros [= <-]; simpl; tauto. }
  destruct (Z.eqb_spec (Format cfg) YAML) as [Hy|_].
  { destruct (yaml_Unmarshal L UnmarshalYAML bytes (Roles cfg)) as [roles [e|]];
      intros [= <-]; simpl; tauto. }
  destruct (Z.eqb_spec (Format cfg) TOML) as [Ht|_].
  { destruct (toml_Unmarshal L bytes (Roles cfg)) as [roles [e|]];
      intros [= <-]; simpl; tauto. }
  destruct (Format cfg =? Unknown)%Z; discriminate.
Qed.

(** After a successful [NewConfig] the file of the configuration is
    there: it was read, or it has just been created. *)
Lemma NewConfig_Ok (L : Libraries) (opts_Path : string) (fs fs1 : afero.Fs)
    (cfg : Config) :
  NewConfig L opts_Path fs = (fs1, Ok cfg) ->
  Path cfg = basePath opts_Path
  /\ (Format cfg = JSON \/ Format cfg = YAML \/ Format cfg = TOML)
  /\ is_Some (afero.files fs1 !! filePath cfg (Format cfg))
  /\ afero.fault fs1 = afero.fault fs.
Proof.
  unfold NewConfig. cbv zeta.
  destruct (afero.Exists fs _) as [j [e|]]; [discriminate |].
  destruct (afero.Exists fs _) as [y [e|]]; [discriminate |].
  destruct (afero.Exists fs _) as [t [e|]]; [discriminate |].
  destruct (_ || _); [discriminate |].
  match goal with
  | |- context [afero.ReadFile fs (filePath ?c ?f)] =>
      set (cfg0 := c); assert (Hp : Path cfg0 = basePath opts_Path)
        by (subst cfg0; destruct j, y, t; reflexivity)
  end.
  change (GetFormat cfg0) with (Format cfg0).
  unfold afero.ReadFile.
  destruct (afero.fault fs afero.OpOpen _) as [e|] eqn:Ef.
  - destruct (afero.IsNotExist e); [| discriminate].
    unfold afero.Create.
    destruct (afero.fault fs afero.OpCreate _); [discriminate |].
    intros [= <- Hd]. apply decodeInto_Ok in Hd as (HP & HF & Hfmt).
    rewrite HP, HF. repeat split; auto.
    unfold filePath, GetPath. rewrite HP. simpl.
    rewrite lookup_insert_eq. eauto.
  - destruct (afero.files fs !! _) as [data|] eqn:El.
    + intros [= <- Hd]. apply decodeInto_Ok in Hd as (HP & HF & Hfmt).
      rewrite HP, HF. repeat split; auto.
      unfold filePath, GetPath in *. rewrite HP. rewrite El. eauto.
    + simpl. unfold afero.Create.
      destruct (afero.fault fs afero.OpCreate _); [discriminate |].
      intros [= <- Hd]. apply decodeInto_Ok in Hd as (HP & HF & Hfmt).
      rewrite HP, HF. repeat split; auto.
      unfold filePath, GetPath. rewrite HP. simpl.
      rewrite lookup_insert_eq. eauto.
Qed.

Lemma decodeInto_not_multiple (L : Libraries) (bytes : string) (cfg : Config) :
  decodeInto L bytes cfg <> Err ErrMultipleConfigs.
Proof.
  unfold decodeInto. cbv zeta.
  destruct (GetFormat cfg =? JSON)%Z.
  { destruct (json_Unmarshal L bytes (Roles cfg)) as [roles [e|]]; discriminate. }
  destruct (GetFormat cfg =? YAML)%Z.
  { destruct (yaml_Unmarshal L UnmarshalYAML bytes (Roles cfg)) as [roles [e|]];
      discriminate. }
  destruct (GetFormat cfg =? TOML)%Z.
  { destruct (toml_Unmarshal L bytes (Roles cfg)) as [roles [e|]]; discriminate. }
  destruct (GetFormat cfg =? Unknown)%Z; discriminate.
Qed.

(** C8, as stated, fails when an existence probe fails.  The filesystem
    holds [cfg.json] and [cfg.yaml], and both probes report them; the
    stat of [cfg.toml] fails with an error that is not "does not exist".
    [NewConfig] returns that error, wrapped in [ErrCheckFileExists], and
    not [ErrMultipleConfigs]: the test of each probe's error comes before
    the test for several files. *)
Lemma NewConfig_probe_error_not_multiple :
  afero.files fsBrokenTOML !! "cfg.json" = Some "{}"
  /\ afero.files fsBrokenTOML !! "cfg.yaml" = Some EmptyString
  /\ fileExists fsBrokenTOML "cfg.json" true
  /\ fileExists fsBrokenTOML "cfg.yaml" true
  /\ NewConfig idleLibraries "cfg" fsBrokenTOML
     = (fsBrokenTOML,
        Err (ErrCheckFileExists "cfg.toml"
               (os_PathError "too many levels of symbolic links")))
  /\ NewConfig idleLibraries "cfg" fsBrokenTOML
     <> (fsBrokenTOML, Err ErrMultipleConfigs).
Proof.
  split; [reflexivity |]. split; [reflexivity |]. split; [reflexivity |].
  split; [reflexivity |]. split; [reflexivity |].
  intros H. discriminate H.
Qed.

(** C8 (amended): [NewConfig] fails with [ErrMultipleConfigs] exactly
    when each of the three existence probes, of [<path>.json],
    [<path>.yaml] and [<path>.toml], returns without error and two or
    three of them report a file, whichever they are; the filesystem is
    then left as it was.  A probe that fails is reported first: the error
    of the first failing probe, in the order json, yaml, toml, comes back
    wrapped in [ErrCheckFileExists], whatever the other files are. *)
Theorem NewConfig_multiple_configs_unless_probe_fails (L : Libraries)
    (opts_Path : string) (fs : afero.Fs) (hasJSON hasYAML hasTOML : bool)
    (err : error) :
  (fileExists fs (basePath opts_Path +:+ ".json") hasJSON ->
   fileExists fs (basePath opts_Path +:+ ".yaml") hasYAML ->
   fileExists fs (basePath opts_Path +:+ ".toml") hasTOML ->
   (hasJSON = true /\ hasYAML = true) \/ (hasJSON = true /\ hasTOML = true)
     \/ (hasYAML = true /\ hasTOML = true) ->
   NewConfig L opts_Path fs = (fs, Err ErrMultipleConfigs))
  /\ (snd (NewConfig L opts_Path fs) = Err ErrMultipleConfigs ->
      exists j y t,
        fileExists fs (basePath opts_Path +:+ ".json") j
        /\ fileExists fs (basePath opts_Path +:+ ".yaml") y
        /\ fileExists fs (basePath opts_Path +:+ ".toml") t
        /\ ((j = true /\ y = true) \/ (j = true /\ t = true)
            \/ (y = true /\ t = true)))
  /\ (afero.Exists fs (basePath opts_Path +:+ ".json") = (hasJSON, Some err) ->
      NewConfig L opts_Path fs
        = (fs, Err (ErrCheckFileExists (basePath opts_Path +:+ ".json") err)))
  /\ (fileExists fs (basePath opts_Path +:+ ".json") hasJSON ->
      afero.Exists fs (basePath opts_Path +:+ ".yaml") = (hasYAML, Some err) ->
      NewConfig L opts_Path fs
        = (fs, Err (ErrCheckFileExists (basePath opts_Path +:+ ".yaml") err)))
  /\ (fileExists fs (basePath opts_Path +:+ ".json") hasJSON ->
      fileExists fs (basePath opts_Path +:+ ".yaml") hasYAML ->
      afero.Exists fs (basePath opts_Path +:+ ".toml") = (hasTOML, Some err) ->
      NewConfig L opts_Path fs
        = (fs, Err (ErrCheckFileExists (basePath opts_Path +:+ ".toml") err))).
Proof.
  split; [apply NewConfig_multiple_configs |].
  unfold fileExists, NewConfig. cbv zeta.
  change (filePath _ JSON) with (basePath opts_Path +:+ ".json").
  change (filePath _ YAML) with (basePath opts_Path +:+ ".yaml").
  change (filePath _ TOML) with (basePath opts_Path +:+ ".toml").
  split; [| split; [| split]].
  - destruct (afero.Exists fs (basePath opts_Path +:+ ".json")) as [j [e|]];
      [discriminate |].
    destruct (afero.Exists fs (basePath opts_Path +:+ ".yaml")) as [y [e|]];
      [discriminate |].
    destruct (afero.Exists fs (basePath opts_Path +:+ ".toml")) as [t [e|]];
      [discriminate |].
    destruct (j && y && t || j && y || j && t || y && t) eqn:Etwo.
    + intros _. exists j, y, t. repeat split; try reflexivity.
      destruct j, y, t; simpl in Etwo; try discriminate Etwo; tauto.
    + destruct (afero.ReadFile fs _) as [bytes [e|]].
      * destruct (afero.IsNotExist e); [| discriminate].
        destruct (afero.Create fs _) as [fs' [e'|]]; [discriminate |].
        simpl. intros H. now apply decodeInto_not_multiple in H.
      * simpl. intros H. now apply decodeInto_not_multiple in H.
  - intros H. now rewrite H.
  - intros Hj Hy. now rewrite Hj, Hy.
  - intros Hj Hy Ht. now rewrite Hj, Hy, Ht.
Qed.

Lemma NewConfig_multiple_configs_unless_probe_fails_witness :
  NewConfig idleLibraries "cfg.yaml" fsTwoConfigs
    = (fsTwoConfigs, Err ErrMultipleConfigs)
  /\ NewConfig idleLibraries "cfg" fsBrokenTOML
     = (fsBrokenTOML,
        Err (ErrCheckFileExists "cfg.toml"
               (os_PathError "too many levels of symbolic links"))).
Proof.
  split.
  - apply (proj1 (NewConfig_multiple_configs_unless_probe_fails idleLibraries
                    "cfg.yaml" fsTwoConfigs true true false ErrUnexpected));
      [reflexivity | reflexivity | reflexivity |].
    left. split; reflexivity.
  - apply (proj2 (proj2 (proj2 (proj2
             (NewConfig_multiple_configs_unless_probe_fails idleLibraries
                "cfg" fsBrokenTOML true true false
                (os_PathError "too many levels of symbolic links"))))));
      reflexivity.
Defined.

Lemma marshalFn_Unknown (L : Libraries) (roles : list Role) :
  marshalFn L Unknown roles = (EmptyString, None).
Proof. reflexivity. Qed.

Lemma Save_Unknown (L : Libraries) (c : Config) (fs : afero.Fs) :
  Format c = Unknown ->
  Save L c fs = afero.WriteFile fs (Path c +:+ ".UNKNOWN") EmptyString.
Proof.
  intros HU. unfold Save, GetFormat, GetPath. rewrite HU.
  rewrite marshalFn_Unknown. reflexivity.
Qed.

Lemma WriteFile_Ok (fs fs' : afero.Fs) (name data : string) :
  afero.WriteFile fs name data = (fs', None) ->
  afero.files fs' = <[name := data]> (afero.files fs)
  /\ afero.fault fs' = afero.fault fs.
Proof.
  unfold afero.WriteFile. destruct (afero.fault fs afero.OpWrite name);
    [discriminate |]. intros [= <-]. now split.
Qed.

Lemma WriteFile_healthy (fs : afero.Fs) (name data : string) :
  afero.fault fs afero.OpWrite name = None ->
  afero.WriteFile fs name data
    = (afero.mkFs (<[name := data]> (afero.files fs)) (afero.fault fs), None).
Proof. intros H. unfold afero.WriteFile. now rewrite H. Qed.

Lemma Remove_present (fs : afero.Fs) (name data : string) :
  afero.fault fs afero.OpRemove name = None ->
  afero.files fs !! name = Some data ->
  afero.Remove fs name
    = (afero.mkFs (delete name (afero.files fs)) (afero.fault fs), None).
Proof. intros H1 H2. unfold afero.Remove. now rewrite H1, H2. Qed.

Lemma extension_differs (p : string) (format : ConfigFormat) :
  format = JSON \/ format = YAML \/ format = TOML ->
  p +:+ "." +:+ ConfigFormat_String format <> p +:+ ".UNKNOWN".
Proof.
  intros Hf Heq. apply String.app_inj in Heq.
  destruct Hf as [-> | [-> | ->]]; discriminate Heq.
Qed.

(** C10: [Save] of a configuration whose format is [Unknown] marshals
    nothing and reports no format error: it is the write of zero bytes to
    [<path>.UNKNOWN], and succeeds when that write does.  So [convertCmd]
    with an extension [FromExt] does not know, once the configuration is
    loaded and the write and the removal go through, leaves an empty
    [<path>.UNKNOWN] and no configuration file of the old format. *)
Theorem Save_Unknown_writes_empty_file (L : Libraries) (P : Process)
    (c : Config) (fs : afero.Fs) (fmtExt : string) (rest : list string) :
  (Format c = Unknown ->
     Save L c fs = afero.WriteFile fs (Path c +:+ ".UNKNOWN") EmptyString
     /\ forall fs', afero.WriteFile fs (Path c +:+ ".UNKNOWN") EmptyString
                      = (fs', None) ->
          Save L c fs = (fs', None)
          /\ afero.files fs' !! (Path c +:+ ".UNKNOWN") = Some EmptyString)
  /\ (FromExt fmtExt = Unknown -> user_Current P = None ->
      forall fs1 cfg, NewConfig L (configFile P) fs = (fs1, Ok cfg) ->
      afero.fault fs afero.OpWrite (Path cfg +:+ ".UNKNOWN") = None ->
      afero.fault fs afero.OpRemove (filePath cfg (Format cfg)) = None ->
      exists fs3,
        convertCmd L P (fmtExt :: rest) fs = (fs3, Returns None)
        /\ is_Some (afero.files fs1 !! filePath cfg (Format cfg))
        /\ afero.files fs3 !! filePath cfg (Format cfg) = None
        /\ afero.files fs3 !! (Path cfg +:+ ".UNKNOWN") = Some EmptyString
        /\ afero.files fs3
           = delete (filePath cfg (Format cfg))
               (<[Path cfg +:+ ".UNKNOWN" := EmptyString]> (afero.files fs1))).
Proof.
  split.
  - intros HU. split; [now apply Save_Unknown |].
    intros fs' Hw. rewrite (Save_Unknown L c fs HU). split; [exact Hw |].
    apply WriteFile_Ok in Hw as [-> _]. apply lookup_insert_eq.
  - intros Hext Huser fs1 cfg Hnew Hwrite Hremove.
    destruct (NewConfig_Ok _ _ _ _ _ Hnew) as (_ & Hfmt & [old Hold] & Hfault).
    rewrite <- Hfault in Hwrite, Hremove.
    assert (Hne : Path cfg +:+ ".UNKNOWN" <> filePath cfg (Format cfg)).
    { intros Heq. symmetry in Heq. revert Heq. rewrite filePath_eq.
      now apply extension_differs. }
    unfold convertCmd. rewrite Huser, Hnew. cbv zeta. rewrite Hext.
    rewrite (Save_Unknown L (SetFormat Unknown cfg) fs1 eq_refl).
    change (Path (SetFormat Unknown cfg)) with (Path cfg).
    rewrite (WriteFile_healthy fs1 _ EmptyString Hwrite).
    unfold GetFormat.
    rewrite (Remove_present _ (filePath cfg (Format cfg)) old);
      [| exact Hremove | simpl; now rewrite lookup_insert_ne].
    eexists; split; [reflexivity |]. simpl. repeat split.
    + eauto.
    + apply lookup_delete_eq.
    + rewrite lookup_delete_ne by congruence. apply lookup_insert_eq.
Qed.

Lemma Save_Unknown_writes_empty_file_witness :
  (Save idleLibraries (mkConfig "cfg" Unknown [skunk]) fsYAML
     = (afero.mkFs (<["cfg.UNKNOWN" := EmptyString]> (afero.files fsYAML))
                   afero.healthy, None))
  /\ exists fs3,
       convertCmd idleLibraries processExit3 ["ini"] fsYAML = (fs3, Returns None)
       /\ afero.files fs3 !! "cfg.yaml" = None
       /\ afero.files fs3 !! "cfg.UNKNOWN" = Some EmptyString.
Proof.
  split.
  - apply (proj2 (proj1 (Save_Unknown_writes_empty_file idleLibraries
             processExit3 (mkConfig "cfg" Unknown [skunk]) fsYAML "ini" [])
             eq_refl)).
    reflexivity.
  - destruct (proj2 (Save_Unknown_writes_empty_file idleLibraries
               processExit3 (mkConfig "cfg" Unknown []) fsYAML "ini" [])
               eq_refl eq_refl fsYAML (mkConfig "cfg" YAML [])
               eq_refl eq_refl eq_refl)
      as (fs3 & Hrun & _ & Hold & Hnew & _).
    exists fs3. repeat split; assumption.
Defined.

(** ** The JSON encoding of an ARN *)

(** What [MarshalJSON] returns starts with the byte [a], where no JSON
    value starts. *)
Lemma MarshalJSON_not_JSON (a : ARN) : json.Valid (fst (MarshalJSON a)) = false.
Proof. reflexivity. Qed.

Lemma marshalerEncoder_ARN (a : ARN) :
  marshalerEncoder (Some a)
    = (EmptyString, Some (json_MarshalerError json_SyntaxError)).
Proof.
  unfold marshalerEncoder.
  pose proof (MarshalJSON_not_JSON a) as H.
  destruct (MarshalJSON a) as [b [e|]] eqn:E; [discriminate E |].
  simpl in H. now rewrite H.
Qed.

Lemma encodeARNs_fails (roles : list Role) :
  (exists r a, In r roles /\ Role_ARN r = Some a) ->
  encodeARNs roles = ([], Some (json_MarshalerError json_SyntaxError)).
Proof.
  induction roles as [|r roles IH]; intros (x & a & Hin & Ha).
  - destruct Hin.
  - simpl. unfold GetARN. destruct (Role_ARN r) as [b|] eqn:Er.
    + now rewrite marshalerEncoder_ARN.
    + simpl. destruct Hin as [-> | Hin]; [congruence |].
      rewrite IH; [reflexivity | now exists x, a].
Qed.

(** [Save] in the JSON format fails as soon as one role holds an ARN, and
    writes nothing. *)
Lemma Save_JSON_fails (L : Libraries) (c : Config) (fs : afero.Fs) :
  Format c = JSON ->
  (exists r a, In r (Roles c) /\ Role_ARN r = Some a) ->
  Save L c fs = (fs, Some (ErrMarshal (json_MarshalerError json_SyntaxError))).
Proof.
  intros Hf Hr. unfold Save, GetFormat. rewrite Hf.
  change (marshalFn L JSON) with (json_Marshal L).
  unfold json_Marshal. now rewrite (encodeARNs_fails _ Hr).
Qed.

(** What [MarshalJSON] wrote, [UnmarshalJSON] does not read: the decoder
    stores nothing and [ParseARN] is run on the empty string. *)
Lemma UnmarshalJSON_MarshalJSON (L : Libraries) (a : ARN) :
  UnmarshalJSON L (fst (MarshalJSON a)) = (arn.zero, Some arn_invalidPrefix).
Proof.
  unfold UnmarshalJSON, json_Unmarshal_intermediate.
  now rewrite MarshalJSON_not_JSON.
Qed.

(** The scanner at work: it accepts the documents of [TestARNUnmarshalJSON]
    and a configuration document, and rejects a bare ARN. *)
Example Valid_arn_object :
  json.Valid ("{" +:+ json.quoted "arn" +:+ ":"
                +:+ json.quoted "arn:aws:iam::587928718845:role/skunk" +:+ "}")
  = true.
Proof. reflexivity. Qed.

Example Valid_quoted_arn : json.Valid (json.quoted "arn:::::") = true.
Proof. reflexivity. Qed.

Example Valid_config_document :
  json.Valid ("{" +:+ json.quoted "roles" +:+ ": [ {"
                +:+ json.quoted "alias" +:+ ":" +:+ json.quoted "skunk" +:+ ", "
                +:+ json.quoted "arn" +:+ ": null, "
                +:+ json.quoted "session_name" +:+ ":" +:+ json.quoted "sess"
                +:+ "} ] }")
  = true.
Proof. reflexivity. Qed.

Example Valid_bare_arn : json.Valid "arn:::::" = false.
Proof. reflexivity. Qed.

(** The conversion to JSON that the README describes: with one role that
    holds an ARN in the loaded configuration, [convertCmd] stops at the
    failing [Save]; no JSON file is written and the old file stays. *)
Lemma convertCmd_json_fails (L : Libraries) (P : Process) (rest : list string)
    (fs fs1 : afero.Fs) (cfg : Config) :
  user_Current P = None ->
  NewConfig L (configFile P) fs = (fs1, Ok cfg) ->
  (exists r a, In r (Roles cfg) /\ Role_ARN r = Some a) ->
  convertCmd L P ("json" :: rest) fs
    = (fs1, Returns (Some (ErrWritingToFile (Path cfg +:+ ".json")
                             (ErrMarshal (json_MarshalerError json_SyntaxError))))).
Proof.
  intros Huser Hnew Hroles. unfold convertCmd. rewrite Huser, Hnew. cbv zeta.
  change (FromExt "json") with JSON.
  rewrite (Save_JSON_fails L (SetFormat JSON cfg) fs1 eq_refl Hroles).
  reflexivity.
Qed.

(** C1, at a configuration of one role in the JSON format: [Save] fails
    with a marshalling error and leaves the filesystem as it was, whatever
    the libraries lay out and whatever the filesystem holds, because the
    bytes of [MarshalJSON] are no JSON value; the same bytes given to
    [UnmarshalJSON] come back as an error.  The YAML hooks, which write
    and read the same bare string, give the ARN back. *)
Theorem Save_JSON_roundtrip_fails (L : Libraries) (fs : afero.Fs) :
  Save L (mkConfig "cfg" JSON [skunk]) fs
    = (fs, Some (ErrMarshal (json_MarshalerError json_SyntaxError)))
  /\ MarshalJSON skunkARN = ("arn:aws:iam::000000000000:role/skunk", None)
  /\ json.Valid "arn:aws:iam::000000000000:role/skunk" = false
  /\ UnmarshalJSON L (fst (MarshalJSON skunkARN))
     = (arn.zero, Some arn_invalidPrefix)
  /\ UnmarshalYAML (fst (MarshalYAML skunkARN)) = (skunkARN, None).
Proof.
  split; [| split; [| split; [| split]]].
  - apply Save_JSON_fails; [reflexivity |].
    exists skunk, skunkARN. split; [now left | reflexivity].
  - reflexivity.
  - reflexivity.
  - apply UnmarshalJSON_MarshalJSON.
  - reflexivity.
Qed.

(** ** The exit status of [exec] *)

(** Whatever error [Run] returns, the exit error of the child included,
    [ExecRole] returns it: the branch that would call [os.Exit] with the
    status of the child is never reached. *)
Lemma ExecRole_Run_error (P : Process) (alias : string) (d : Z)
    (command : string) (arguments : list string) (c : Config)
    (role : Role) (a : ARN) (res : Credentials) (err : error) :
  LoadDefaultAWSConfig P = None ->
  firstByAlias alias (Roles c) = Some role ->
  Role_ARN role = Some a ->
  AssumeRole P d (ARN_String a) (SessionName role) = Ok res ->
  (forall env, Run P command arguments env = Some err) ->
  ExecRole P alias d command arguments c = Returns (Some err)
  /\ exitStatus (ExecRole P alias d command arguments c) = 1%Z.
Proof.
  intros Hcfg Hrole Harn Hsts Hrun.
  assert (H : ExecRole P alias d command arguments c = Returns (Some err)).
  { unfold ExecRole, GetRoleByAlias, GetARN, GetSessionName.
    rewrite Hcfg, Hrole, Harn, Hsts, Hrun. reflexivity. }
  split; [exact H | now rewrite H].
Qed.

(** C2, at a child that exits with status 3: [ExecRole] returns the exit
    error to [main], which prints it and exits with status 1, not 3. *)
Theorem ExecRole_exit_status_not_propagated :
  ExecRole processExit3 "skunk" 3600 "sh" ["-c"; "exit 3"] cfgTwo
    = Returns (Some (exec_ExitError 3))
  /\ exitStatus (ExecRole processExit3 "skunk" 3600 "sh" ["-c"; "exit 3"] cfgTwo)
     = 1%Z
  /\ exitStatus (ExecRole processExit3 "skunk" 3600 "sh" ["-c"; "exit 3"] cfgTwo)
     <> 3%Z.
Proof.
  destruct (ExecRole_Run_error processExit3 "skunk" 3600 "sh" ["-c"; "exit 3"]
              cfgTwo skunk skunkARN (mkCredentials "AKIA" "secret" "token")
              (exec_ExitError 3) eq_refl eq_refl eq_refl eq_refl
              (fun _ => eq_refl)) as [H1 H2].
  split; [exact H1 | split; [exact H2 |]].
  rewrite H2. discriminate.
Qed.

(* ===================================================================== *)
(** * Part III: further properties of the package                         *)
(* ===================================================================== *)

(** ** Lookup *)

Lemma firstByAlias_split (alias : string) (roles : list Role) (role : Role) :
  firstByAlias alias roles = Some role ->
  Alias role = alias
  /\ exists l1 l2, roles = l1 ++ role :: l2 /\ ~ In alias (map Alias l1).
Proof.
  induction roles as [|x roles IH]; simpl; [discriminate |].
  unfold GetAlias. destruct (String.eqb (Alias x) alias) eqn:E.
  - apply String.eqb_eq in E. intros [= <-]. split; [exact E |].
    exists [], roles. split; [reflexivity | simpl; tauto].
  - apply String.eqb_neq in E. intros H.
    destruct (IH H) as (Ha & l1 & l2 & -> & Hnot). split; [exact Ha |].
    exists (x :: l1), l2. split; [reflexivity |]. simpl. tauto.
Qed.

Lemma firstByAlias_app (alias : string) (l1 l2 : list Role) :
  firstByAlias alias (l1 ++ l2) =
    match firstByAlias alias l1 with
    | Some role => Some role
    | None => firstByAlias alias l2
    end.
Proof.
  induction l1 as [|x l1 IH]; simpl; [reflexivity |].
  destruct (String.eqb (GetAlias x) alias); [reflexivity | exact IH].
Qed.

(** With unique aliases the lookup finds a role exactly when the role is
    in the registry under that alias. *)
Lemma firstByAlias_unique (roles : list Role) (role : Role) :
  NoDup (map Alias roles) -> In role roles ->
  firstByAlias (Alias role) roles = Some role.
Proof.
  induction roles as [|x roles IH]; simpl; intros Hnd Hin; [destruct Hin |].
  apply NoDup_cons in Hnd as [Hx Hnd]. unfold GetAlias.
  destruct Hin as [-> | Hin].
  - now rewrite String.eqb_refl.
  - destruct (String.eqb (Alias x) (Alias role)) eqn:E; [| now apply IH].
    apply String.eqb_eq in E. exfalso. apply Hx. rewrite E.
    apply list_elem_of_In. now apply in_map.
Qed.

Lemma firstByAlias_Permutation (alias : string) (l l' : list Role) :
  NoDup (map Alias l) -> Permutation l l' ->
  firstByAlias alias l = firstByAlias alias l'.
Proof.
  intros Hnd Hp.
  assert (Hnd' : NoDup (map Alias l')).
  { apply NoDup_ListNoDup. eapply Permutation_NoDup;
      [apply Permutation_map, Hp | now apply NoDup_ListNoDup]. }
  destruct (firstByAlias alias l) as [x|] eqn:E.
  - apply firstByAlias_split in E as (Ha & l1 & l2 & Hl & _).
    assert (Hin : In x l') by (eapply Permutation_in; [exact Hp |];
      rewrite Hl; apply in_elt).
    rewrite <- Ha. symmetry. now apply firstByAlias_unique.
  - apply firstByAlias_None in E. symmetry. apply firstByAlias_None.
    intros Hin. apply E. eapply Permutation_in; [| exact Hin].
    apply Permutation_map. now apply Permutation_sym.
Qed.

Lemma spec_removeByAlias_other (alias other : string) (l l' : list Role) :
  spec_removeByAlias alias l = Some l' -> other <> alias ->
  firstByAlias other l' = firstByAlias other l.
Proof.
  revert l'. induction l as [|x l IH]; intros l'; simpl; [discriminate |].
  unfold GetAlias. destruct (String.eqb (Alias x) alias) eqn:E.
  - apply String.eqb_eq in E. intros [= <-] Hne.
    destruct (String.eqb (Alias x) other) eqn:E'; [| reflexivity].
    apply String.eqb_eq in E'. congruence.
  - destruct (spec_removeByAlias alias l) as [rest|]; [| discriminate].
    intros [= <-] Hne. simpl. unfold GetAlias.
    destruct (String.eqb (Alias x) other); [reflexivity | now apply IH].
Qed.

Lemma spec_removeByAlias_length (alias : string) (l l' : list Role) :
  spec_removeByAlias alias l = Some l' -> List.length l = S (List.length l').
Proof.
  revert l'. induction l as [|x l IH]; intros l'; simpl; [discriminate |].
  destruct (String.eqb (Alias x) alias).
  - now intros [= <-].
  - destruct (spec_removeByAlias alias l) as [rest|]; [| discriminate].
    intros [= <-]. simpl. f_equal. now apply IH.
Qed.

Lemma spec_removeByAlias_gone (alias : string) (l l' : list Role) :
  NoDup (map Alias l) -> spec_removeByAlias alias l = Some l' ->
  ~ In alias (map Alias l').
Proof.
  revert l'. induction l as [|x l IH]; intros l' Hnd; simpl; [discriminate |].
  simpl in Hnd. apply NoDup_cons in Hnd as [Hx Hnd].
  destruct (String.eqb (Alias x) alias) eqn:E.
  - apply String.eqb_eq in E. intros [= <-]. rewrite <- E.
    intros Hin. apply Hx. now apply list_elem_of_In.
  - apply String.eqb_neq in E.
    destruct (spec_removeByAlias alias l) as [rest|] eqn:Er; [| discriminate].
    intros [= <-]. simpl. intros [H | H]; [congruence |].
    now apply (IH rest Hnd).
Qed.

(** X1: [GetRoleByAlias] returns the first role under the alias: the role
    it returns carries the alias, is in the registry, and no role before
    it carries the alias; the error is [ErrRoleNotFound], returned with no
    role, exactly when no role carries the alias. *)
Theorem GetRoleByAlias_first_match (alias : string) (c : Config) :
  match GetRoleByAlias alias c with
  | (Some role, None) =>
      Alias role = alias
      /\ exists before after,
           Roles c = before ++ role :: after /\ ~ In alias (map Alias before)
  | (None, Some err) => err = ErrRoleNotFound alias /\ ~ In alias (aliases c)
  | _ => False
  end.
Proof.
  unfold GetRoleByAlias.
  destruct (firstByAlias alias (Roles c)) as [role|] eqn:E.
  - now apply firstByAlias_split.
  - split; [reflexivity | now apply firstByAlias_None].
Qed.

(** X2: a successful [RemoveRoleByAlias] takes one role out: the registry
    is one role shorter, the roles left keep their order, path and format
    stay, and the lookup of every other alias gives what it gave before. *)
Theorem RemoveRoleByAlias_effect (alias : string) (c c' : Config) :
  RemoveRoleByAlias alias c = (c', None) ->
  List.length (Roles c) = S (List.length (Roles c'))
  /\ sublist (Roles c') (Roles c)
  /\ Path c' = Path c /\ Format c' = Format c
  /\ forall other, other <> alias ->
       GetRoleByAlias other c' = GetRoleByAlias other c.
Proof.
  rewrite RemoveRoleByAlias_spec.
  destruct (spec_removeByAlias alias (Roles c)) as [rest|] eqn:E; [| discriminate].
  intros [= <-]. simpl. repeat split.
  - now apply (spec_removeByAlias_length alias).
  - now apply (spec_removeByAlias_sublist alias).
  - intros other Hne. unfold GetRoleByAlias. simpl.
    now rewrite (spec_removeByAlias_other alias other _ _ E Hne).
Qed.

Lemma RemoveRoleByAlias_effect_witness :
  List.length (Roles cfgTwo) = 2
  /\ GetRoleByAlias "otter" (mkConfig "cfg" YAML [otter]) = (Some otter, None).
Proof.
  destruct (RemoveRoleByAlias_effect "skunk" cfgTwo (mkConfig "cfg" YAML [otter])
              eq_refl) as (Hlen & _ & _ & _ & Hother).
  split; [exact Hlen |].
  rewrite (Hother "otter"); [reflexivity | discriminate].
Defined.

(** X3: in a registry with unique aliases, a removed alias is no longer
    found, and the aliases stay unique. *)
Theorem RemoveRoleByAlias_then_not_found (alias : string) (c c' : Config) :
  uniqueAliases c -> RemoveRoleByAlias alias c = (c', None) ->
  GetRoleByAlias alias c' = (None, Some (ErrRoleNotFound alias))
  /\ uniqueAliases c'.
Proof.
  intros Hu Hrm. split; [| now apply (RemoveRoleByAlias_unique alias c)].
  rewrite RemoveRoleByAlias_spec in Hrm.
  destruct (spec_removeByAlias alias (Roles c)) as [rest|] eqn:E; [| discriminate].
  injection Hrm as <-. unfold GetRoleByAlias. simpl.
  pose proof (spec_removeByAlias_gone alias _ _ Hu E) as Hgone.
  apply firstByAlias_None in Hgone. now rewrite Hgone.
Qed.

Lemma RemoveRoleByAlias_then_not_found_witness :
  GetRoleByAlias "skunk" (mkConfig "cfg" YAML [otter])
    = (None, Some (ErrRoleNotFound "skunk")).
Proof.
  apply (RemoveRoleByAlias_then_not_found "skunk" cfgTwo
           (mkConfig "cfg" YAML [otter])); [| reflexivity].
  unfold uniqueAliases. simpl. apply NoDup_cons. split.
  - intros H. apply list_elem_of_singleton in H. discriminate.
  - apply NoDup_singleton.
Defined.

Lemma cfgTwo_unique : uniqueAliases cfgTwo.
Proof.
  unfold uniqueAliases. simpl. apply NoDup_cons. split.
  - intros H. apply list_elem_of_singleton in H. discriminate.
  - apply NoDup_singleton.
Qed.

Lemma cfgTwo_sorted : sortedDescending (Roles cfgTwo).
Proof.
  unfold sortedDescending. simpl. repeat constructor.
Qed.

Lemma zebra_free : ~ In (Alias zebra) (aliases cfgTwo).
Proof. simpl. intros [H | [H | H]]; [discriminate H | discriminate H | exact H]. Qed.

(** ** Adding *)

Lemma firstByAlias_only (roles : list Role) (role : Role) :
  In role roles ->
  (forall x, In x roles -> Alias x = Alias role -> x = role) ->
  firstByAlias (Alias role) roles = Some role.
Proof.
  induction roles as [|y roles IH]; simpl; intros Hin Honly; [destruct Hin |].
  unfold GetAlias. destruct (String.eqb (Alias y) (Alias role)) eqn:E.
  - apply String.eqb_eq in E. f_equal. apply Honly; auto.
  - apply String.eqb_neq in E. destruct Hin as [-> | Hin]; [congruence |].
    apply IH; auto.
Qed.

(** X4: after [AddRole] of a role under a free alias, [GetRoleByAlias]
    of that alias returns the role, and the registry is one role
    longer. *)
Theorem AddRole_then_found (r : Role) (c : Config) :
  ~ In (Alias r) (aliases c) ->
  exists c', AddRole r c = (c', None)
             /\ GetRoleByAlias (Alias r) c' = (Some r, None)
             /\ List.length (Roles c') = S (List.length (Roles c)).
Proof.
  intros Hfree. rewrite (AddRole_free r c Hfree).
  eexists; split; [reflexivity |]. unfold GetRoleByAlias. simpl.
  pose proof (sort_Slice_Permutation aliasGreater (Roles c ++ [r])) as Hp.
  split.
  - rewrite (firstByAlias_only _ r); [reflexivity | |].
    + eapply Permutation_in; [exact Hp |]. apply in_or_app. right. now left.
    + intros x Hx Hax.
      apply (Permutation_in _ (Permutation_sym Hp)) in Hx.
      apply in_app_or in Hx as [Hx | [Hx | []]]; [| now symmetry].
      exfalso. apply Hfree. rewrite <- Hax. now apply in_map.
  - rewrite <- (Permutation_length Hp), length_app. simpl. lia.
Qed.

Lemma AddRole_then_found_witness :
  exists c', AddRole zebra cfgTwo = (c', None)
             /\ GetRoleByAlias "zebra" c' = (Some zebra, None)
             /\ List.length (Roles c') = 3.
Proof. apply (AddRole_then_found zebra cfgTwo). exact zebra_free. Defined.

(** X5: uniqueness of aliases is kept by every successful [AddRole] and
    [RemoveRoleByAlias], and by a successful [UpdateRoleByAlias] whose new
    role takes the alias it replaces or an alias not in the registry. *)
Theorem uniqueAliases_kept (alias : string) (r : Role) (c c' : Config) :
  uniqueAliases c ->
  (AddRole r c = (c', None) -> uniqueAliases c')
  /\ (RemoveRoleByAlias alias c = (c', None) -> uniqueAliases c')
  /\ (UpdateRoleByAlias alias r c = (c', None) ->
      Alias r = alias \/ ~ In (Alias r) (aliases c) -> uniqueAliases c').
Proof.
  intros Hu. split; [| split].
  - now apply AddRole_unique.
  - now apply RemoveRoleByAlias_unique.
  - now apply UpdateRoleByAlias_unique.
Qed.

Lemma uniqueAliases_kept_witness :
  uniqueAliases (mkConfig "cfg" YAML [zebra; skunk; otter])
  /\ uniqueAliases (mkConfig "cfg" YAML [otter])
  /\ uniqueAliases (mkConfig "cfg" YAML [skunk; zebra]).
Proof.
  split; [| split].
  - apply (proj1 (uniqueAliases_kept "skunk" zebra cfgTwo
                    (mkConfig "cfg" YAML [zebra; skunk; otter]) cfgTwo_unique)).
    reflexivity.
  - apply (proj1 (proj2 (uniqueAliases_kept "skunk" zebra cfgTwo
                    (mkConfig "cfg" YAML [otter]) cfgTwo_unique))).
    reflexivity.
  - apply (proj2 (proj2 (uniqueAliases_kept "otter" zebra cfgTwo
                    (mkConfig "cfg" YAML [skunk; zebra]) cfgTwo_unique)));
      [reflexivity | right; exact zebra_free].
Defined.

(** X6: in a registry with unique aliases, [AddRole] does not disturb the
    other roles: the lookup of every alias but the new one gives what it
    gave before, however the roles were rearranged by the sort. *)
Theorem AddRole_keeps_lookups (r : Role) (c c' : Config) (other : string) :
  uniqueAliases c -> AddRole r c = (c', None) -> other <> Alias r ->
  GetRoleByAlias other c' = GetRoleByAlias other c.
Proof.
  intros Hu Hadd Hne.
  destruct (in_dec string_dec (Alias r) (aliases c)) as [Hin | Hfree].
  - rewrite (AddRole_taken r c Hin) in Hadd. discriminate.
  - rewrite (AddRole_free r c Hfree) in Hadd. injection Hadd as <-.
    unfold GetRoleByAlias. simpl.
    rewrite <- (firstByAlias_Permutation other (Roles c ++ [r])).
    + rewrite firstByAlias_app. simpl. unfold GetAlias.
      destruct (String.eqb (Alias r) other) eqn:E;
        [apply String.eqb_eq in E; congruence |].
      now destruct (firstByAlias other (Roles c)).
    + rewrite map_app. simpl. apply NoDup_app. split; [exact Hu | split].
      * intros x Hx Hx'. apply list_elem_of_singleton in Hx'. subst x.
        apply Hfree. now apply list_elem_of_In.
      * apply NoDup_singleton.
    + apply sort_Slice_Permutation.
Qed.

Lemma AddRole_keeps_lookups_witness :
  GetRoleByAlias "otter" (mkConfig "cfg" YAML [zebra; skunk; otter])
    = GetRoleByAlias "otter" cfgTwo.
Proof.
  apply (AddRole_keeps_lookups zebra cfgTwo _ "otter" cfgTwo_unique);
    [reflexivity | discriminate].
Defined.

(** ** Sorted registries *)

Lemma insert_at_end (x : Role) (acc : list Role) :
  Forall (fun y => notBelow y x) acc -> insert aliasGreater x acc = acc ++ [x].
Proof.
  induction acc as [|y acc IH]; simpl; intros H; [reflexivity |].
  apply Forall_cons in H as [Hy H]. unfold aliasGreater, GetAlias.
  unfold notBelow in Hy. rewrite Hy. f_equal. now apply IH.
Qed.

Lemma fold_insert_sorted_id (l acc : list Role) :
  sortedDescending (acc ++ l) ->
  fold_left (fun acc x => insert aliasGreater x acc) l acc = acc ++ l.
Proof.
  unfold sortedDescending. revert acc.
  induction l as [|x l IH]; intros acc Hs; simpl; [now rewrite app_nil_r |].
  rewrite insert_at_end.
  - rewrite IH; rewrite <- app_assoc; [reflexivity | exact Hs].
  - clear IH. induction acc as [|y acc IHacc]; [constructor |].
    simpl in Hs. apply StronglySorted_inv in Hs as [Hs Hy].
    constructor; [| now apply IHacc].
    apply Forall_app in Hy as [_ Hy]. now apply Forall_cons in Hy as [Hy _].
Qed.

(** A sorted slice comes out of [sort_Slice] as it went in. *)
Lemma sort_Slice_sorted_id (l : list Role) :
  sortedDescending l -> sort_Slice aliasGreater l = l.
Proof. intros Hs. unfold sort_Slice. now rewrite fold_insert_sorted_id. Qed.

Lemma sort_Slice_snoc (l : list Role) (r : Role) :
  sort_Slice aliasGreater (l ++ [r]) = insert aliasGreater r (sort_Slice aliasGreater l).
Proof. unfold sort_Slice. now rewrite fold_left_app. Qed.

Lemma spec_removeByAlias_insert (r : Role) (l : list Role) :
  ~ In (Alias r) (map Alias l) ->
  spec_removeByAlias (Alias r) (insert aliasGreater r l) = Some l.
Proof.
  induction l as [|y l IH]; simpl; intros Hfree.
  - now rewrite String.eqb_refl.
  - destruct (aliasGreater r y); simpl.
    + now rewrite String.eqb_refl.
    + destruct (String.eqb (Alias y) (Alias r)) eqn:E.
      * apply String.eqb_eq in E. tauto.
      * rewrite IH by tauto. reflexivity.
Qed.

Lemma spec_removeByAlias_sorted (alias : string) (l l' : list Role) :
  sortedDescending l -> spec_removeByAlias alias l = Some l' ->
  sortedDescending l'.
Proof.
  unfold sortedDescending. revert l'.
  induction l as [|x l IH]; intros l' Hs; simpl; [discriminate |].
  apply StronglySorted_inv in Hs as [Hs Hx].
  destruct (String.eqb (Alias x) alias).
  - now intros [= <-].
  - destruct (spec_removeByAlias alias l) as [rest|] eqn:E; [| discriminate].
    intros [= <-]. constructor; [now apply IH |].
    rewrite Forall_forall in *. intros y Hy. apply Hx.
    eapply elem_of_sublist; [exact Hy |].
    now apply (spec_removeByAlias_sublist alias).
Qed.

(** X7: on a registry with unique aliases, sorted descending, [AddRole]
    of a role under a free alias followed by [RemoveRoleByAlias] of that
    alias gives the registry back, role for role. *)
Theorem AddRole_then_Remove (r : Role) (c : Config) :
  uniqueAliases c -> sortedDescending (Roles c) -> ~ In (Alias r) (aliases c) ->
  exists c1, AddRole r c = (c1, None)
             /\ RemoveRoleByAlias (Alias r) c1 = (c, None).
Proof.
  intros _ Hs Hfree. rewrite (AddRole_free r c Hfree).
  eexists; split; [reflexivity |].
  rewrite RemoveRoleByAlias_spec. simpl.
  rewrite sort_Slice_snoc, (sort_Slice_sorted_id _ Hs).
  rewrite (spec_removeByAlias_insert r (Roles c) Hfree).
  now destruct c.
Qed.

Lemma AddRole_then_Remove_witness :
  exists c1, AddRole zebra cfgTwo = (c1, None)
             /\ RemoveRoleByAlias "zebra" c1 = (cfgTwo, None).
Proof.
  apply (AddRole_then_Remove zebra cfgTwo);
    [exact cfgTwo_unique | exact cfgTwo_sorted | exact zebra_free].
Defined.

(** X8: the descending order is an invariant of [AddRole] and
    [RemoveRoleByAlias]: after a successful [AddRole] the registry is
    sorted, whatever it was, and [RemoveRoleByAlias] keeps a sorted
    registry sorted. *)
Theorem sortedDescending_kept (alias : string) (r : Role) (c c' : Config) :
  (AddRole r c = (c', None) -> sortedDescending (Roles c'))
  /\ (sortedDescending (Roles c) -> RemoveRoleByAlias alias c = (c', None) ->
      sortedDescending (Roles c')).
Proof.
  split.
  - intros Hadd.
    destruct (in_dec string_dec (Alias r) (aliases c)) as [Hin | Hfree].
    + rewrite (AddRole_taken r c Hin) in Hadd. discriminate.
    + rewrite (AddRole_free r c Hfree) in Hadd. injection Hadd as <-.
      apply sort_Slice_sorted.
  - intros Hs Hrm. rewrite RemoveRoleByAlias_spec in Hrm.
    destruct (spec_removeByAlias alias (Roles c)) as [rest|] eqn:E; [| discriminate].
    injection Hrm as <-. simpl. now apply (spec_removeByAlias_sorted alias (Roles c)).
Qed.

Lemma sortedDescending_kept_witness :
  sortedDescending [zebra; skunk; otter] /\ sortedDescending [otter].
Proof.
  split.
  - apply (proj1 (sortedDescending_kept "skunk" skunk
                    (mkConfig "cfg" YAML [otter; zebra])
                    (mkConfig "cfg" YAML [zebra; skunk; otter]))).
    reflexivity.
  - apply (proj2 (sortedDescending_kept "skunk" zebra cfgTwo
                    (mkConfig "cfg" YAML [otter])));
      [exact cfgTwo_sorted | reflexivity].
Defined.

(** X9: [UpdateRoleByAlias] with a new role that keeps the alias, on a
    registry with unique aliases that holds the alias: it succeeds, the
    number of roles is unchanged, the aliases stay unique, and the lookup
    of the alias now returns the new role. *)
Theorem UpdateRoleByAlias_same_alias (alias : string) (r : Role) (c : Config) :
  uniqueAliases c -> In alias (aliases c) -> Alias r = alias ->
  exists c', UpdateRoleByAlias alias r c = (c', None)
             /\ List.length (Roles c') = List.length (Roles c)
             /\ uniqueAliases c'
             /\ GetRoleByAlias alias c' = (Some r, None).
Proof.
  intros Hu Hin Hr.
  destruct (spec_removeByAlias alias (Roles c)) as [rest|] eqn:E;
    [| apply spec_removeByAlias_None in E; contradiction].
  assert (Hup : UpdateRoleByAlias alias r c = (SetRoles (rest ++ [r]) c, None)).
  { unfold UpdateRoleByAlias. rewrite RemoveRoleByAlias_spec, E. reflexivity. }
  rewrite Hup. eexists; split; [reflexivity |]. split; [| split].
  - simpl. rewrite length_app. simpl.
    rewrite (spec_removeByAlias_length alias _ _ E). lia.
  - apply (UpdateRoleByAlias_unique alias r c _ Hu Hup). now left.
  - unfold GetRoleByAlias. simpl. rewrite firstByAlias_app.
    pose proof (spec_removeByAlias_gone alias _ _ Hu E) as Hgone.
    apply firstByAlias_None in Hgone. rewrite Hgone. simpl.
    unfold GetAlias. rewrite Hr, String.eqb_refl. reflexivity.
Qed.

Lemma UpdateRoleByAlias_same_alias_witness :
  exists c', UpdateRoleByAlias "skunk" skunk2 cfgTwo = (c', None)
             /\ List.length (Roles c') = 2
             /\ uniqueAliases c'
             /\ GetRoleByAlias "skunk" c' = (Some skunk2, None).
Proof.
  apply (UpdateRoleByAlias_same_alias "skunk" skunk2 cfgTwo cfgTwo_unique);
    [simpl; now left | reflexivity].
Defined.

(** ** Formats *)

(** X10: [FromExt] reads back what [String] prints for each of the four
    declared formats, [Unknown] included; a value that is none of the four
    prints as the empty string, which [FromExt] reads as [Unknown]; and
    what [FromExt] returns never prints as the empty string. *)
Theorem FromExt_of_String (cf : ConfigFormat) (ext : string) :
  (cf = JSON \/ cf = TOML \/ cf = YAML \/ cf = Unknown ->
     FromExt (ConfigFormat_String cf) = cf)
  /\ (cf <> JSON -> cf <> TOML -> cf <> YAML -> cf <> Unknown ->
      ConfigFormat_String cf = EmptyString
      /\ FromExt (ConfigFormat_String cf) = Unknown)
  /\ ConfigFormat_String (FromExt ext) <> EmptyString.
Proof.
  split; [| split].
  - intros [-> | [-> | [-> | ->]]]; reflexivity.
  - intros H0 H1 H2 H3.
    assert (Hs : ConfigFormat_String cf = EmptyString).
    { unfold ConfigFormat_String.
      destruct (Z.eqb_spec cf JSON); [contradiction |].
      destruct (Z.eqb_spec cf TOML); [contradiction |].
      destruct (Z.eqb_spec cf YAML); [contradiction |].
      destruct (Z.eqb_spec cf Unknown); [contradiction |]. reflexivity. }
    rewrite Hs. split; reflexivity.
  - unfold FromExt. cbv zeta.
    destruct (String.eqb _ "json"); [discriminate |].
    destruct (String.eqb _ "toml"); [discriminate |].
    destruct (_ || _); discriminate.
Qed.

Lemma FromExt_of_String_witness :
  FromExt (ConfigFormat_String Unknown) = Unknown
  /\ ConfigFormat_String 7%Z = EmptyString.
Proof.
  split.
  - apply (proj1 (FromExt_of_String Unknown EmptyString)). tauto.
  - apply (proj1 (proj2 (FromExt_of_String 7%Z EmptyString))); discriminate.
Defined.

(** ** The JSON hooks and [Save] *)

(** X11: [UnmarshalJSON] never reports a JSON error.  On bytes that are
    not valid JSON it returns the zero ARN with the prefix error of
    [ParseARN]; on any bytes its error, if there is one, is one of the two
    parse errors. *)
Theorem UnmarshalJSON_hides_syntax_error (L : Libraries) (bs : string) :
  (json.Valid bs = false ->
     UnmarshalJSON L bs = (arn.zero, Some arn_invalidPrefix))
  /\ (snd (UnmarshalJSON L bs) = None
      \/ MalformedIdentifier (snd (UnmarshalJSON L bs))).
Proof.
  split.
  - intros Hv. unfold UnmarshalJSON, json_Unmarshal_intermediate.
    now rewrite Hv.
  - unfold UnmarshalJSON. cbv zeta.
    set (s := json_Unmarshal_intermediate L bs).
    destruct (HasPrefix_cases s) as [(r & -> & _) | Hn].
    + destruct (Nat.le_gt_cases 4 (GoStrings.Count r ":")) as [Hc | Hc].
      * left. unfold ParseARN.
        destruct (Parse_enough_sections r Hc) as (a & -> & _). reflexivity.
      * right. right. unfold ParseARN. now rewrite (Parse_few_sections r Hc).
    + right. left. unfold ParseARN. now rewrite (Parse_no_prefix s Hn).
Qed.

Lemma UnmarshalJSON_hides_syntax_error_witness :
  UnmarshalJSON idleLibraries "{" = (arn.zero, Some arn_invalidPrefix).
Proof.
  apply (proj1 (UnmarshalJSON_hides_syntax_error idleLibraries "{")).
  reflexivity.
Defined.

Lemma encodeARNs_nil_ARNs (roles : list Role) :
  (forall r, In r roles -> Role_ARN r = None) ->
  encodeARNs roles = (map (fun _ => "null") roles, None).
Proof.
  induction roles as [|r roles IH]; simpl; intros H; [reflexivity |].
  unfold GetARN. rewrite (H r) by now left. simpl.
  rewrite IH by (intros x Hx; apply H; now right). reflexivity.
Qed.

(** X12: in the JSON format [Save] fails with a marshalling error, and
    writes nothing, as soon as one role holds an ARN; when no role does,
    [Save] is the write of the document to [<path>.json], every ARN
    encoded as [null]. *)
Theorem Save_JSON_only_without_ARN (L : Libraries) (c : Config) (fs : afero.Fs) :
  Format c = JSON ->
  ((exists r a, In r (Roles c) /\ Role_ARN r = Some a) ->
     Save L c fs
       = (fs, Some (ErrMarshal (json_MarshalerError json_SyntaxError))))
  /\ ((forall r, In r (Roles c) -> Role_ARN r = None) ->
      Save L c fs
        = afero.WriteFile fs (Path c +:+ ".json")
            (json_layout L (Roles c) (map (fun _ => "null") (Roles c)))).
Proof.
  intros Hf. split.
  - now apply Save_JSON_fails.
  - intros Hnil. unfold Save, GetFormat, GetPath. rewrite Hf.
    change (marshalFn L JSON) with (json_Marshal L).
    unfold json_Marshal. rewrite (encodeARNs_nil_ARNs _ Hnil). reflexivity.
Qed.

Lemma Save_JSON_only_without_ARN_witness :
  Save idleLibraries (mkConfig "cfg" JSON [skunk; mkRole "bare" None "sess"]) fsYAML
    = (fsYAML, Some (ErrMarshal (json_MarshalerError json_SyntaxError)))
  /\ Save idleLibraries (mkConfig "cfg" JSON [mkRole "bare" None "sess"]) fsYAML
     = afero.WriteFile fsYAML "cfg.json" EmptyString.
Proof.
  split.
  - apply (proj1 (Save_JSON_only_without_ARN idleLibraries
                    (mkConfig "cfg" JSON [skunk; mkRole "bare" None "sess"])
                    fsYAML eq_refl)).
    exists skunk, skunkARN. split; [now left | reflexivity].
  - apply (proj2 (Save_JSON_only_without_ARN idleLibraries
                    (mkConfig "cfg" JSON [mkRole "bare" None "sess"])
                    fsYAML eq_refl)).
    intros r [<- | []]. reflexivity.
Defined.

(** X13: [Save] touches one file at most: whatever it returns, every
    file but [<path>.<extension of the format>] is as before.  When the
    marshalling fails, nothing is written and the error comes back wrapped
    in [ErrMarshal]; when it succeeds, the outcome of [Save] is the
    outcome of the write of the marshalled bytes, its error unwrapped. *)
Theorem Save_frame (L : Libraries) (c : Config) (fs : afero.Fs) :
  (forall name, name <> filePath c (Format c) ->
     afero.files (fst (Save L c fs)) !! name = afero.files fs !! name)
  /\ (forall e, snd (marshalFn L (Format c) (Roles c)) = Some e ->
       Save L c fs = (fs, Some (ErrMarshal e)))
  /\ (snd (marshalFn L (Format c) (Roles c)) = None ->
       Save L c fs
         = afero.WriteFile fs (filePath c (Format c))
             (fst (marshalFn L (Format c) (Roles c)))).
Proof.
  unfold Save, GetFormat.
  change (GoStrings.Join [GetPath c; ConfigFormat_String (Format c)] ".")
    with (filePath c (Format c)).
  destruct (marshalFn L (Format c) (Roles c)) as [bytes [e|]]; simpl.
  - split; [reflexivity | split; [intros e' [= <-]; reflexivity | discriminate]].
  - split; [| split; [discriminate | reflexivity]].
    intros name Hne. unfold afero.WriteFile.
    destruct (afero.fault fs afero.OpWrite (filePath c (Format c))); simpl;
      [reflexivity | now rewrite lookup_insert_ne].
Qed.

Lemma Save_frame_witness :
  Save idleLibraries (mkConfig "cfg" JSON [skunk]) fsYAML
    = (fsYAML, Some (ErrMarshal (json_MarshalerError json_SyntaxError)))
  /\ afero.files (fst (Save idleLibraries (mkConfig "cfg" TOML [skunk]) fsYAML))
       !! "cfg.yaml" = afero.files fsYAML !! "cfg.yaml".
Proof.
  split.
  - apply (proj1 (proj2 (Save_frame idleLibraries (mkConfig "cfg" JSON [skunk])
                           fsYAML))).
    reflexivity.
  - apply (proj1 (Save_frame idleLibraries (mkConfig "cfg" TOML [skunk]) fsYAML)).
    discriminate.
Defined.

(** ** Loading *)

Lemma Exists_faultless (fs : afero.Fs) (name : string) :
  faultless fs ->
  afero.Exists fs name
    = (match afero.files fs !! name with Some _ => true | None => false end, None).
Proof.
  intros Hf. unfold afero.Exists, afero.Stat. rewrite Hf.
  now destruct (afero.files fs !! name).
Qed.

Lemma ReadFile_faultless (fs : afero.Fs) (name : string) :
  faultless fs ->
  afero.ReadFile fs name
    = match afero.files fs !! name with
      | Some data => (data, None)
      | None => (EmptyString, Some os_ErrNotExist)
      end.
Proof. intros Hf. unfold afero.ReadFile. now rewrite Hf. Qed.

(** [NewConfig] on a faultless filesystem, by the files that are there. *)
Lemma NewConfig_faultless (L : Libraries) (opts_Path : string) (fs : afero.Fs) :
  faultless fs ->
  NewConfig L opts_Path fs =
    match afero.files fs !! (basePath opts_Path +:+ ".json"),
          afero.files fs !! (basePath opts_Path +:+ ".yaml"),
          afero.files fs !! (basePath opts_Path +:+ ".toml") with
    | Some data, None, None =>
        (fs, decodeInto L data (mkConfig (basePath opts_Path) JSON []))
    | None, Some data, None =>
        (fs, decodeInto L data (mkConfig (basePath opts_Path) YAML []))
    | None, None, Some data =>
        (fs, decodeInto L data (mkConfig (basePath opts_Path) TOML []))
    | None, None, None =>
        (afero.mkFs (<[basePath opts_Path +:+ ".yaml" := EmptyString]>
                       (afero.files fs)) (afero.fault fs),
         decodeInto L EmptyString (mkConfig (basePath opts_Path) YAML []))
    | _, _, _ => (fs, Err ErrMultipleConfigs)
    end.
Proof.
  intros Hf. unfold NewConfig. cbv zeta.
  change (filePath _ JSON) with (basePath opts_Path +:+ ".json").
  change (filePath _ YAML) with (basePath opts_Path +:+ ".yaml").
  change (filePath _ TOML) with (basePath opts_Path +:+ ".toml").
  rewrite !(Exists_faultless fs _ Hf).
  destruct (afero.files fs !! (basePath opts_Path +:+ ".json")) as [dj|] eqn:Ej;
  destruct (afero.files fs !! (basePath opts_Path +:+ ".yaml")) as [dy|] eqn:Ey;
  destruct (afero.files fs !! (basePath opts_Path +:+ ".toml")) as [dt|] eqn:Et;
    try reflexivity; cbn [andb orb]; cbv iota.
  - change (filePath _ _) with (basePath opts_Path +:+ ".json").
    rewrite (ReadFile_faultless fs _ Hf), Ej. reflexivity.
  - change (filePath _ _) with (basePath opts_Path +:+ ".yaml").
    rewrite (ReadFile_faultless fs _ Hf), Ey. reflexivity.
  - change (filePath _ _) with (basePath opts_Path +:+ ".toml").
    rewrite (ReadFile_faultless fs _ Hf), Et. reflexivity.
  - change (filePath _ _) with (basePath opts_Path +:+ ".yaml").
    rewrite (ReadFile_faultless fs _ Hf), Ey. cbn [afero.IsNotExist].
    unfold afero.Create. rewrite Hf. reflexivity.
Qed.

Lemma supported_extension_inj (p : string) (f g : ConfigFormat) :
  supported f -> supported g ->
  p +:+ "." +:+ ConfigFormat_String f = p +:+ "." +:+ ConfigFormat_String g ->
  f = g.
Proof.
  intros Hf Hg Heq. apply String.app_inj in Heq.
  destruct Hf as [-> | [-> | ->]], Hg as [-> | [-> | ->]];
    try reflexivity; discriminate Heq.
Qed.

Lemma NewConfig_single_file (L : Libraries) (opts_Path : string) (fs : afero.Fs)
    (format : ConfigFormat) (data : string) :
  faultless fs -> supported format ->
  afero.files fs !! (basePath opts_Path +:+ "." +:+ ConfigFormat_String format)
    = Some data ->
  (forall other, supported other -> other <> format ->
     afero.files fs !! (basePath opts_Path +:+ "." +:+ ConfigFormat_String other)
       = None) ->
  NewConfig L opts_Path fs
    = (fs, decodeInto L data (mkConfig (basePath opts_Path) format [])).
Proof.
  intros Hf Hs Hthis Hothers. rewrite (NewConfig_faultless L _ _ Hf).
  assert (HJ := Hothers JSON). assert (HY := Hothers YAML).
  assert (HT := Hothers TOML). unfold supported in *.
  change (_ +:+ "." +:+ ConfigFormat_String JSON)
    with (basePath opts_Path +:+ ".json") in HJ.
  change (_ +:+ "." +:+ ConfigFormat_String YAML)
    with (basePath opts_Path +:+ ".yaml") in HY.
  change (_ +:+ "." +:+ ConfigFormat_String TOML)
    with (basePath opts_Path +:+ ".toml") in HT.
  destruct Hs as [-> | [-> | ->]].
  - change (_ +:+ "." +:+ ConfigFormat_String JSON)
      with (basePath opts_Path +:+ ".json") in Hthis.
    rewrite Hthis, HY, HT; [reflexivity | tauto | discriminate | tauto | discriminate].
  - change (_ +:+ "." +:+ ConfigFormat_String YAML)
      with (basePath opts_Path +:+ ".yaml") in Hthis.
    rewrite Hthis, HJ, HT; [reflexivity | tauto | discriminate | tauto | discriminate].
  - change (_ +:+ "." +:+ ConfigFormat_String TOML)
      with (basePath opts_Path +:+ ".toml") in Hthis.
    rewrite Hthis, HJ, HY; [reflexivity | tauto | discriminate | tauto | discriminate].
Qed.

Lemma faultless_healthy (files : gmap string string) :
  faultless (afero.mkFs files afero.healthy).
Proof. intros op name. reflexivity. Qed.

(** X14: what [Save] writes, [NewConfig] reads.  On a faultless
    filesystem that holds no configuration file of another format, after a
    successful [Save] of a configuration in a supported format,
    [NewConfig] on the same path selects that format, leaves the
    filesystem as [Save] left it, and decodes exactly the bytes that were
    marshalled, into an empty role list. *)
Theorem Save_then_NewConfig (L : Libraries) (c : Config) (opts_Path : string)
    (fs fs' : afero.Fs) :
  faultless fs -> supported (Format c) -> Path c = basePath opts_Path ->
  (forall other, supported other -> other <> Format c ->
     afero.files fs !! filePath c other = None) ->
  Save L c fs = (fs', None) ->
  NewConfig L opts_Path fs'
    = (fs', decodeInto L (fst (marshalFn L (Format c) (Roles c)))
                         (mkConfig (Path c) (Format c) [])).
Proof.
  intros Hf Hs Hp Hothers Hsave. unfold Save, GetFormat, GetPath in Hsave.
  destruct (marshalFn L (Format c) (Roles c)) as [bytes [e|]]; [discriminate |].
  rewrite (WriteFile_healthy fs _ bytes (Hf _ _)) in Hsave.
  injection Hsave as <-. simpl. rewrite Hp.
  apply NewConfig_single_file.
  - intros op name. apply Hf.
  - exact Hs.
  - simpl. rewrite <- Hp. apply lookup_insert_eq.
  - intros other Hso Hne. simpl. rewrite lookup_insert_ne.
    + rewrite <- Hp. apply (Hothers other Hso Hne).
    + intros Heq. apply Hne. symmetry.
      rewrite <- Hp in Heq.
      exact (supported_extension_inj (Path c) _ _ Hs Hso Heq).
Qed.

Lemma Save_then_NewConfig_witness :
  NewConfig idleLibraries "cfg"
            (afero.mkFs (<["cfg.toml" := EmptyString]> ∅) afero.healthy)
  = (afero.mkFs (<["cfg.toml" := EmptyString]> ∅) afero.healthy,
     Ok (mkConfig "cfg" TOML [])).
Proof.
  apply (Save_then_NewConfig idleLibraries (mkConfig "cfg" TOML [skunk]) "cfg"
           (afero.mkFs ∅ afero.healthy)).
  - apply faultless_healthy.
  - right. now right.
  - reflexivity.
  - intros other [-> | [-> | ->]] Hne; [reflexivity | reflexivity | now destruct Hne].
  - reflexivity.
Defined.

(** X15: with none of [<path>.json], [<path>.yaml] and [<path>.toml] on a
    faultless filesystem, [NewConfig] takes the YAML format, creates the
    empty file [<path>.yaml] and decodes zero bytes. *)
Theorem NewConfig_creates_yaml (L : Libraries) (opts_Path : string)
    (fs : afero.Fs) :
  faultless fs ->
  afero.files fs !! (basePath opts_Path +:+ ".json") = None ->
  afero.files fs !! (basePath opts_Path +:+ ".yaml") = None ->
  afero.files fs !! (basePath opts_Path +:+ ".toml") = None ->
  NewConfig L opts_Path fs
    = (afero.mkFs (<[basePath opts_Path +:+ ".yaml" := EmptyString]>
                     (afero.files fs)) (afero.fault fs),
       decodeInto L EmptyString (mkConfig (basePath opts_Path) YAML [])).
Proof.
  intros Hf Hj Hy Ht. rewrite (NewConfig_faultless L _ _ Hf).
  now rewrite Hj, Hy, Ht.
Qed.

Lemma NewConfig_creates_yaml_witness :
  NewConfig idleLibraries "dir/awssume" (afero.mkFs ∅ afero.healthy)
  = (afero.mkFs (<["dir/awssume.yaml" := EmptyString]> ∅) afero.healthy,
     Ok (mkConfig "dir/awssume" YAML [])).
Proof.
  apply (NewConfig_creates_yaml idleLibraries "dir/awssume"
           (afero.mkFs ∅ afero.healthy));
    [apply faultless_healthy | reflexivity | reflexivity | reflexivity].
Defined.

(** X16: with exactly one of the three files on a faultless filesystem,
    [NewConfig] takes the format of that file, decodes its bytes and
    leaves the filesystem as it is. *)
Theorem NewConfig_selects_the_file (L : Libraries) (opts_Path : string)
    (fs : afero.Fs) (format : ConfigFormat) (data : string) :
  faultless fs -> supported format ->
  afero.files fs !! (basePath opts_Path +:+ "." +:+ ConfigFormat_String format)
    = Some data ->
  (forall other, supported other -> other <> format ->
     afero.files fs !! (basePath opts_Path +:+ "." +:+ ConfigFormat_String other)
       = None) ->
  NewConfig L opts_Path fs
    = (fs, decodeInto L data (mkConfig (basePath opts_Path) format [])).
Proof. apply NewConfig_single_file. Qed.

Lemma NewConfig_selects_the_file_witness :
  NewConfig idleLibraries "cfg.json" fsYAML = (fsYAML, Ok (mkConfig "cfg" YAML [])).
Proof.
  apply (NewConfig_selects_the_file idleLibraries "cfg.json" fsYAML YAML EmptyString).
  - apply faultless_healthy.
  - right. now left.
  - reflexivity.
  - intros other [-> | [-> | ->]] Hne; [reflexivity | now destruct Hne | reflexivity].
Defined.

(** What [NewConfig] can do to the filesystem and return, on any
    filesystem. *)
Lemma NewConfig_outcome (L : Libraries) (opts_Path : string) (fs : afero.Fs) :
  (fst (NewConfig L opts_Path fs) = fs
   \/ exists format, supported format
        /\ fst (NewConfig L opts_Path fs)
           = afero.mkFs (<[basePath opts_Path +:+ "."
                             +:+ ConfigFormat_String format := EmptyString]>
                           (afero.files fs)) (afero.fault fs))
  /\ match snd (NewConfig L opts_Path fs) with
     | Ok cfg => Path cfg = basePath opts_Path /\ supported (Format cfg)
     | Err err =>
         err <> ErrUnsupportedConfigFormat /\ err <> ErrUnexpected
     | Panic => True
     end.
Proof.
  assert (Hdec : forall bytes cfg, supported (Format cfg) ->
            match decodeInto L bytes cfg with
            | Ok cfg' => Path cfg' = Path cfg /\ supported (Format cfg')
            | Err err => err <> ErrUnsupportedConfigFormat /\ err <> ErrUnexpected
            | Panic => True
            end).
  { intros bytes cfg Hs. destruct (decodeInto L bytes cfg) as [cfg'|err|] eqn:E.
    - apply decodeInto_Ok in E as (HP & HF & _). rewrite HF. now split.
    - unfold decodeInto, GetFormat in E. cbv zeta in E.
      destruct Hs as [Hs | [Hs | Hs]]; rewrite Hs in E; simpl in E;
        match type of E with
        | match ?u with _ => _ end = _ => destruct u as [roles [e|]]
        end; try discriminate E; injection E as <-;
        repeat split; discriminate.
    - exact I. }
  unfold NewConfig. cbv zeta.
  destruct (afero.Exists fs _) as [j [e|]];
    [simpl; split; [now left | repeat split; discriminate] |].
  destruct (afero.Exists fs _) as [y [e|]];
    [simpl; split; [now left | repeat split; discriminate] |].
  destruct (afero.Exists fs _) as [t [e|]];
    [simpl; split; [now left | repeat split; discriminate] |].
  destruct (_ || _); [simpl; split; [now left | repeat split; discriminate] |].
  match goal with
  | |- context [afero.ReadFile fs (filePath ?c ?f)] =>
      set (cfg0 := c);
      assert (Hp : Path cfg0 = basePath opts_Path)
        by (subst cfg0; destruct j, y, t; reflexivity);
      assert (Hs : supported (Format cfg0))
        by (subst cfg0; unfold supported; destruct j, y, t; simpl; tauto)
  end.
  change (GetFormat cfg0) with (Format cfg0).
  destruct (afero.ReadFile fs _) as [bytes [e|]].
  - destruct (afero.IsNotExist e).
    + unfold afero.Create.
      destruct (afero.fault fs afero.OpCreate _); simpl.
      * split; [now left | exact I].
      * split.
        -- right. exists (Format cfg0). split; [exact Hs |].
           unfold filePath, GetPath. rewrite Hp. reflexivity.
        -- specialize (Hdec bytes cfg0 Hs).
           destruct (decodeInto L bytes cfg0); [| exact Hdec | exact I].
           now rewrite <- Hp.
    + simpl. split; [now left | repeat split; discriminate].
  - simpl. split; [now left |].
    specialize (Hdec bytes cfg0 Hs).
    destruct (decodeInto L bytes cfg0); [| exact Hdec | exact I].
    now rewrite <- Hp.
Qed.

(** X17: [NewConfig] never fails with [ErrUnsupportedConfigFormat] or
    [ErrUnexpected]: the format is set to one of the three supported
    ones before the decoder is picked.  A configuration it returns has a
    supported format, and as path the given path without its
    extension. *)
Theorem NewConfig_format_supported (L : Libraries) (opts_Path : string)
    (fs : afero.Fs) :
  snd (NewConfig L opts_Path fs) <> Err ErrUnsupportedConfigFormat
  /\ snd (NewConfig L opts_Path fs) <> Err ErrUnexpected
  /\ forall cfg, snd (NewConfig L opts_Path fs) = Ok cfg ->
       supported (Format cfg) /\ Path cfg = basePath opts_Path.
Proof.
  destruct (NewConfig_outcome L opts_Path fs) as [_ H].
  destruct (snd (NewConfig L opts_Path fs)) as [cfg|err|].
  - split; [discriminate | split; [discriminate |]].
    intros cfg' [= <-]. tauto.
  - destruct H as [H1 H2].
    split; [congruence | split; [congruence | discriminate]].
  - split; [discriminate | split; discriminate].
Qed.

(** X18: [NewConfig] changes nothing on the filesystem but the
    configuration file it may create: every file whose name is not the
    path with one of the three extensions is as before, and on a
    faultless filesystem every file that was there keeps its contents. *)
Theorem NewConfig_frame (L : Libraries) (opts_Path : string) (fs : afero.Fs) :
  (forall name,
     (forall format, supported format ->
        name <> basePath opts_Path +:+ "." +:+ ConfigFormat_String format) ->
     afero.files (fst (NewConfig L opts_Path fs)) !! name
       = afero.files fs !! name)
  /\ afero.fault (fst (NewConfig L opts_Path fs)) = afero.fault fs
  /\ (faultless fs -> forall name data,
        afero.files fs !! name = Some data ->
        afero.files (fst (NewConfig L opts_Path fs)) !! name = Some data).
Proof.
  split; [| split].
  - intros name Hname.
    destruct (NewConfig_outcome L opts_Path fs) as [[-> | (f & Hs & ->)] _];
      [reflexivity |].
    simpl. rewrite lookup_insert_ne; [reflexivity |].
    intros Heq. now apply (Hname f Hs).
  - destruct (NewConfig_outcome L opts_Path fs) as [[-> | (f & Hs & ->)] _];
      reflexivity.
  - intros Hf name data Hname. rewrite (NewConfig_faultless L _ _ Hf).
    destruct (afero.files fs !! (basePath opts_Path +:+ ".json")) eqn:Ej;
    destruct (afero.files fs !! (basePath opts_Path +:+ ".yaml")) eqn:Ey;
    destruct (afero.files fs !! (basePath opts_Path +:+ ".toml")) eqn:Et;
      simpl; try exact Hname.
    rewrite lookup_insert_ne; [exact Hname | congruence].
Qed.

Lemma NewConfig_frame_witness :
  afero.files (fst (NewConfig idleLibraries "cfg" fsTwoConfigs)) !! "cfg.json"
    = Some "{}".
Proof.
  apply (proj2 (proj2 (NewConfig_frame idleLibraries "cfg" fsTwoConfigs))).
  - apply faultless_healthy.
  - reflexivity.
Defined.

Lemma NewConfig_format_supported_witness :
  supported (Format (mkConfig "cfg" YAML []))
  /\ Path (mkConfig "cfg" YAML []) = basePath "cfg.yaml".
Proof.
  apply (proj2 (proj2 (NewConfig_format_supported idleLibraries "cfg.yaml" fsYAML))).
  reflexivity.
Defined.

(** ** Converting *)

Lemma Save_marshalled (L : Libraries) (c : Config) (fs : afero.Fs)
    (bytes : string) :
  marshalFn L (Format c) (Roles c) = (bytes, None) ->
  Save L c fs = afero.WriteFile fs (filePath c (Format c)) bytes.
Proof. intros Hm. unfold Save, GetFormat. now rewrite Hm. Qed.

(** A conversion that goes through: the file of the new format is
    written, then the file of the old format is removed. *)
Lemma convertCmd_success (L : Libraries) (P : Process) (fmtExt : string)
    (rest : list string) (fs fs1 : afero.Fs) (cfg : Config) (bytes : string) :
  user_Current P = None ->
  NewConfig L (configFile P) fs = (fs1, Ok cfg) ->
  marshalFn L (FromExt fmtExt) (Roles cfg) = (bytes, None) ->
  afero.fault fs1 afero.OpWrite (filePath cfg (FromExt fmtExt)) = None ->
  afero.fault fs1 afero.OpRemove (filePath cfg (Format cfg)) = None ->
  convertCmd L P (fmtExt :: rest) fs
    = (afero.mkFs (delete (filePath cfg (Format cfg))
                     (<[filePath cfg (FromExt fmtExt) := bytes]> (afero.files fs1)))
                  (afero.fault fs1),
       Returns None).
Proof.
  intros Huser Hnew Hm Hw Hr.
  destruct (NewConfig_Ok _ _ _ _ _ Hnew) as (_ & _ & [old Hold] & _).
  unfold convertCmd. rewrite Huser, Hnew. cbv zeta.
  rewrite (Save_marshalled L (SetFormat (FromExt fmtExt) cfg) fs1 bytes Hm).
  change (filePath (SetFormat (FromExt fmtExt) cfg)
                   (Format (SetFormat (FromExt fmtExt) cfg)))
    with (filePath cfg (FromExt fmtExt)).
  rewrite (WriteFile_healthy fs1 _ bytes Hw).
  unfold GetFormat.
  destruct (decide (filePath cfg (FromExt fmtExt) = filePath cfg (Format cfg)))
    as [Heq | Hne].
  - rewrite (Remove_present _ (filePath cfg (Format cfg)) bytes);
      [reflexivity | exact Hr |].
    simpl. rewrite Heq. apply lookup_insert_eq.
  - rewrite (Remove_present _ (filePath cfg (Format cfg)) old);
      [reflexivity | exact Hr |].
    simpl. now rewrite lookup_insert_ne.
Qed.

(** X19: converting to the format the configuration already has loses
    it.  [convertCmd] writes the file and then removes the file of the
    old format, which is the same file: the command reports success and
    the configuration file is gone. *)
Theorem convertCmd_same_format_removes (L : Libraries) (P : Process)
    (fmtExt : string) (rest : list string) (fs fs1 : afero.Fs) (cfg : Config)
    (bytes : string) :
  user_Current P = None ->
  NewConfig L (configFile P) fs = (fs1, Ok cfg) ->
  FromExt fmtExt = Format cfg ->
  marshalFn L (Format cfg) (Roles cfg) = (bytes, None) ->
  afero.fault fs1 afero.OpWrite (filePath cfg (Format cfg)) = None ->
  afero.fault fs1 afero.OpRemove (filePath cfg (Format cfg)) = None ->
  exists fs3,
    convertCmd L P (fmtExt :: rest) fs = (fs3, Returns None)
    /\ is_Some (afero.files fs1 !! filePath cfg (Format cfg))
    /\ afero.files fs3 !! filePath cfg (Format cfg) = None
    /\ afero.files fs3 = delete (filePath cfg (Format cfg)) (afero.files fs1).
Proof.
  intros Huser Hnew Hext Hm Hw Hr.
  rewrite <- Hext in Hm, Hw.
  rewrite (convertCmd_success L P fmtExt rest fs fs1 cfg bytes Huser Hnew Hm Hw Hr).
  destruct (NewConfig_Ok _ _ _ _ _ Hnew) as (_ & _ & Hold & _).
  eexists; split; [reflexivity |]. simpl. split; [exact Hold | split].
  - apply lookup_delete_eq.
  - rewrite Hext. apply delete_insert_eq.
Qed.

Lemma convertCmd_same_format_removes_witness :
  exists fs3,
    convertCmd idleLibraries processExit3 ["yml"] fsYAML = (fs3, Returns None)
    /\ afero.files fs3 !! "cfg.yaml" = None.
Proof.
  destruct (convertCmd_same_format_removes idleLibraries processExit3 "yml" []
              fsYAML fsYAML (mkConfig "cfg" YAML []) EmptyString
              eq_refl eq_refl eq_refl eq_refl eq_refl eq_refl)
    as (fs3 & Hrun & _ & Hgone & _).
  exists fs3. split; assumption.
Defined.

(** X20: converting to another supported format, when the marshalling,
    the write and the removal go through: the file of the new format
    holds the marshalled bytes, the file of the old format is gone, and
    no other file is touched. *)
Theorem convertCmd_other_format (L : Libraries) (P : Process)
    (fmtExt : string) (rest : list string) (fs fs1 : afero.Fs) (cfg : Config)
    (bytes : string) :
  user_Current P = None ->
  NewConfig L (configFile P) fs = (fs1, Ok cfg) ->
  supported (FromExt fmtExt) -> FromExt fmtExt <> Format cfg ->
  marshalFn L (FromExt fmtExt) (Roles cfg) = (bytes, None) ->
  afero.fault fs1 afero.OpWrite (filePath cfg (FromExt fmtExt)) = None ->
  afero.fault fs1 afero.OpRemove (filePath cfg (Format cfg)) = None ->
  exists fs3,
    convertCmd L P (fmtExt :: rest) fs = (fs3, Returns None)
    /\ afero.files fs3 !! filePath cfg (FromExt fmtExt) = Some bytes
    /\ afero.files fs3 !! filePath cfg (Format cfg) = None
    /\ forall name, name <> filePath cfg (FromExt fmtExt) ->
         name <> filePath cfg (Format cfg) ->
         afero.files fs3 !! name = afero.files fs1 !! name.
Proof.
  intros Huser Hnew Hs Hne Hm Hw Hr.
  rewrite (convertCmd_success L P fmtExt rest fs fs1 cfg bytes Huser Hnew Hm Hw Hr).
  destruct (NewConfig_Ok _ _ _ _ _ Hnew) as (_ & Hfmt & _ & _).
  assert (Hpaths : filePath cfg (Format cfg) <> filePath cfg (FromExt fmtExt)).
  { rewrite !filePath_eq. intros Heq. apply Hne. symmetry.
    exact (supported_extension_inj (Path cfg) _ _ Hfmt Hs Heq). }
  eexists; split; [reflexivity |]. simpl. split; [| split].
  - rewrite lookup_delete_ne by exact Hpaths. apply lookup_insert_eq.
  - apply lookup_delete_eq.
  - intros name Hn1 Hn2.
    rewrite lookup_delete_ne by congruence. now rewrite lookup_insert_ne.
Qed.

Lemma convertCmd_other_format_witness :
  exists fs3,
    convertCmd idleLibraries processExit3 [".toml"] fsYAML = (fs3, Returns None)
    /\ afero.files fs3 !! "cfg.toml" = Some EmptyString
    /\ afero.files fs3 !! "cfg.yaml" = None.
Proof.
  destruct (convertCmd_other_format idleLibraries processExit3 ".toml" []
              fsYAML fsYAML (mkConfig "cfg" YAML []) EmptyString
              eq_refl eq_refl (or_intror (or_intror eq_refl))
              ltac:(discriminate) eq_refl eq_refl eq_refl)
    as (fs3 & Hrun & Hnew & Hold & _).
  exists fs3. repeat split; assumption.
Defined.

(** ** Adding from the command line *)

(** X21: the argument test of [addCmd] stops only four arguments or more,
    with the error for too few; nothing is loaded then.  With fewer than
    three arguments the command loads the configuration and then panics
    on the missing argument, unless the first argument is there and is
    rejected by [ParseARN]. *)
Theorem addCmd_argument_count (L : Libraries) (P : Process)
    (args : list string) (fs fs1 : afero.Fs) (cfg : Config) :
  (3 < List.length args ->
     addCmd L P args fs = (fs, Returns (Some errTooFewArguments)))
  /\ (List.length args < 3 -> user_Current P = None ->
      NewConfig L (configFile P) fs = (fs1, Ok cfg) ->
      (forall arg0 rest, args = arg0 :: rest -> snd (ParseARN arg0) = None) ->
      addCmd L P args fs = (fs1, Panics)).
Proof.
  split.
  - intros Hlen. unfold addCmd.
    destruct (Nat.ltb_spec 3 (List.length args)); [reflexivity | lia].
  - intros Hlen Huser Hnew Harn. unfold addCmd.
    destruct (Nat.ltb_spec 3 (List.length args)); [lia |].
    rewrite Huser, Hnew.
    destruct args as [|arg0 rest]; [reflexivity |].
    specialize (Harn arg0 rest eq_refl).
    destruct (ParseARN arg0) as [a [e|]]; [discriminate Harn |].
    destruct rest as [|arg1 [|arg2 rest]]; [reflexivity | reflexivity |].
    simpl in Hlen. lia.
Qed.

Lemma addCmd_argument_count_witness :
  addCmd idleLibraries processExit3
         ["arn:aws:iam::000000000000:role/skunk"; "skunk"; "sess"; "extra"] fsYAML
    = (fsYAML, Returns (Some errTooFewArguments))
  /\ addCmd idleLibraries processExit3
            ["arn:aws:iam::000000000000:role/skunk"; "skunk"]
            (afero.mkFs ∅ afero.healthy)
     = (afero.mkFs (<["cfg.yaml" := EmptyString]> ∅) afero.healthy, Panics).
Proof.
  split.
  - apply (proj1 (addCmd_argument_count idleLibraries processExit3 _ fsYAML
                    fsYAML (mkConfig "cfg" YAML []))).
    simpl. lia.
  - apply (proj2 (addCmd_argument_count idleLibraries processExit3 _ _
                    (afero.mkFs (<["cfg.yaml" := EmptyString]> ∅) afero.healthy)
                    (mkConfig "cfg" YAML [])));
      [simpl; lia | reflexivity | reflexivity |].
    intros arg0 rest [= <- _]. reflexivity.
Defined.

(** X22: [addCmd] with three arguments stores nothing when the ARN is
    malformed or the alias is taken: it returns the parse error,
    respectively [ErrRoleExists], and the filesystem is as [NewConfig]
    left it. *)
Theorem addCmd_rejects (L : Libraries) (P : Process) (arnText alias sname : string)
    (fs fs1 : afero.Fs) (cfg : Config) :
  user_Current P = None ->
  NewConfig L (configFile P) fs = (fs1, Ok cfg) ->
  (GoStrings.HasPrefix arnText "arn:" = false \/ segments arnText < 6 ->
     exists err, addCmd L P [arnText; alias; sname] fs = (fs1, Returns (Some err))
                 /\ MalformedIdentifier (Some err))
  /\ (snd (ParseARN arnText) = None -> In alias (aliases cfg) ->
      addCmd L P [arnText; alias; sname] fs
        = (fs1, Returns (Some (ErrRoleExists alias)))).
Proof.
  intros Huser Hnew. split.
  - intros Hbad. unfold addCmd. simpl. rewrite Huser, Hnew.
    assert (Hm : MalformedIdentifier (snd (ParseARN arnText))).
    { unfold MalformedIdentifier, ParseARN.
      destruct (HasPrefix_cases arnText) as [(r & -> & Hp) | Hn].
      - destruct Hbad as [Hbad | Hbad]; [congruence |].
        rewrite segments_prefixed in Hbad.
        right. rewrite Parse_few_sections by lia. reflexivity.
      - left. now rewrite (Parse_no_prefix _ Hn). }
    destruct (ParseARN arnText) as [a [e|]].
    + exists e. split; [reflexivity | exact Hm].
    + destruct Hm; discriminate.
  - intros Hok Hin. unfold addCmd. simpl. rewrite Huser, Hnew.
    destruct (ParseARN arnText) as [a [e|]]; [discriminate Hok |].
    rewrite (AddRole_taken (mkRole alias (Some a) sname) cfg Hin). reflexivity.
Qed.

Lemma addCmd_rejects_witness :
  (exists err, addCmd idleLibraries processExit3 ["iNv@LiD"; "skunk"; "sess"] fsYAML
               = (fsYAML, Returns (Some err))
               /\ MalformedIdentifier (Some err))
  /\ addCmd stockedLibraries processExit3
            ["arn:aws:iam::111111111111:role/skunk"; "skunk"; "other"] fsYAML
     = (fsYAML, Returns (Some (ErrRoleExists "skunk"))).
Proof.
  split.
  - apply (proj1 (addCmd_rejects idleLibraries processExit3 "iNv@LiD" "skunk" "sess"
                    fsYAML fsYAML (mkConfig "cfg" YAML []) eq_refl eq_refl)).
    left. reflexivity.
  - apply (proj2 (addCmd_rejects stockedLibraries processExit3
                    "arn:aws:iam::111111111111:role/skunk" "skunk" "other"
                    fsYAML fsYAML cfgTwo eq_refl eq_refl));
      [reflexivity | simpl; now left].
Defined.

(** X23: [addCmd] with a well-formed ARN and a free alias saves the
    registry with the new role sorted in; the ARN it stores prints as the
    argument given.  The outcome of the command is the outcome of that
    [Save]. *)
Theorem addCmd_saves_sorted (L : Libraries) (P : Process)
    (arnText alias sname : string) (fs fs1 : afero.Fs) (cfg : Config) :
  user_Current P = None ->
  NewConfig L (configFile P) fs = (fs1, Ok cfg) ->
  GoStrings.HasPrefix arnText "arn:" = true -> 6 <= segments arnText ->
  ~ In alias (aliases cfg) ->
  exists a roles,
    ARN_String a = arnText
    /\ Permutation (Roles cfg ++ [mkRole alias (Some a) sname]) roles
    /\ sortedDescending roles
    /\ addCmd L P [arnText; alias; sname] fs
       = (fst (Save L (SetRoles roles cfg) fs1),
          Returns (snd (Save L (SetRoles roles cfg) fs1))).
Proof.
  intros Huser Hnew Hp Hs Hfree.
  assert (Hparse : exists a, ParseARN arnText = (a, None) /\ ARN_String a = arnText).
  { destruct (HasPrefix_cases arnText) as [(r & -> & _) | Hn]; [| congruence].
    rewrite segments_prefixed in Hs. apply Parse_enough_sections. lia. }
  destruct Hparse as (a & Ha & Hstr).
  exists a, (sort_Slice aliasGreater (Roles cfg ++ [mkRole alias (Some a) sname])).
  split; [exact Hstr | split; [apply sort_Slice_Permutation | split;
    [apply sort_Slice_sorted |]]].
  unfold addCmd. simpl. rewrite Huser, Hnew, Ha.
  rewrite (AddRole_free (mkRole alias (Some a) sname) cfg Hfree).
  now destruct (Save L _ fs1).
Qed.

Lemma addCmd_saves_sorted_witness :
  exists a roles,
    ARN_String a = "arn:aws:iam::000000000000:role/zebra"
    /\ Permutation ([skunk; otter] ++ [mkRole "zebra" (Some a) "sess"]) roles
    /\ sortedDescending roles
    /\ addCmd stockedLibraries processExit3
              ["arn:aws:iam::000000000000:role/zebra"; "zebra"; "sess"] fsYAML
       = (fst (Save stockedLibraries (SetRoles roles cfgTwo) fsYAML),
          Returns (snd (Save stockedLibraries (SetRoles roles cfgTwo) fsYAML))).
Proof.
  apply (addCmd_saves_sorted stockedLibraries processExit3
           "arn:aws:iam::000000000000:role/zebra" "zebra" "sess"
           fsYAML fsYAML cfgTwo);
    [reflexivity | reflexivity | reflexivity | vm_compute; lia | exact zebra_free].
Defined.

(** X24: on a configuration in the JSON format [addCmd] cannot store a
    role: with a well-formed ARN and a free alias the [Save] that ends the
    command fails on the ARN of the new role, and the file is not
    written. *)
Theorem addCmd_JSON_fails (L : Libraries) (P : Process)
    (arnText alias sname : string) (fs fs1 : afero.Fs) (cfg : Config) :
  user_Current P = None ->
  NewConfig L (configFile P) fs = (fs1, Ok cfg) ->
  Format cfg = JSON ->
  snd (ParseARN arnText) = None -> ~ In alias (aliases cfg) ->
  addCmd L P [arnText; alias; sname] fs
    = (fs1, Returns (Some (ErrMarshal (json_MarshalerError json_SyntaxError)))).
Proof.
  intros Huser Hnew Hfmt Hok Hfree. unfold addCmd. simpl. rewrite Huser, Hnew.
  destruct (ParseARN arnText) as [a [e|]]; [discriminate Hok |].
  rewrite (AddRole_free (mkRole alias (Some a) sname) cfg Hfree).
  rewrite Save_JSON_fails; [reflexivity | exact Hfmt |].
  exists (mkRole alias (Some a) sname), a. split; [| reflexivity].
  simpl. eapply Permutation_in; [apply sort_Slice_Permutation |].
  apply in_or_app. right. now left.
Qed.

Lemma addCmd_JSON_fails_witness :
  addCmd idleLibraries processExit3
         ["arn:aws:iam::000000000000:role/skunk"; "skunk"; "sess"]
         (afero.mkFs (<["cfg.json" := "{}"]> ∅) afero.healthy)
  = (afero.mkFs (<["cfg.json" := "{}"]> ∅) afero.healthy,
     Returns (Some (ErrMarshal (json_MarshalerError json_SyntaxError)))).
Proof.
  apply (addCmd_JSON_fails idleLibraries processExit3 _ _ _ _ _
           (mkConfig "cfg" JSON []));
    [reflexivity | reflexivity | reflexivity | reflexivity | simpl; tauto].
Defined.

(** ** Executing *)

Lemma childEnv_eq (P : Process) (res : Credentials) :
  childEnv P res
    = Environ P ++ [ "AWS_ACCESS_KEY_ID=" +:+ AccessKeyId res;
                     "AWS_SECRET_ACCESS_KEY=" +:+ SecretAccessKey res;
                     "AWS_SECURITY_TOKEN=" +:+ SessionToken res;
                     "AWS_SESSION_TOKEN=" +:+ SessionToken res ].
Proof. reflexivity. Qed.

Lemma ExecRole_spawns (P : Process) (alias : string) (d : Z) (command : string)
    (arguments : list string) (c : Config) (role : Role) (a : ARN)
    (res : Credentials) :
  LoadDefaultAWSConfig P = None ->
  firstByAlias alias (Roles c) = Some role ->
  Role_ARN role = Some a ->
  AssumeRole P d (ARN_String a) (SessionName role) = Ok res ->
  ExecRole P alias d command arguments c
    = Returns (Run P command arguments (childEnv P res)).
Proof.
  intros Hcfg Hrole Harn Hsts.
  unfold ExecRole, GetRoleByAlias, GetARN, GetSessionName.
  rewrite Hcfg, Hrole, Harn, Hsts.
  change (Environ P ++ StringSlice _) with (childEnv P res).
  now destruct (Run P command arguments (childEnv P res)).
Qed.

(** X25: once the credentials are there, [ExecRole] runs the command
    with the given arguments and returns whatever [Run] returns, the exit
    error of the child included; it never ends the process itself.  The
    environment of the child is the environment of the process followed
    by the four credential variables, the session token under both of its
    names. *)
Theorem ExecRole_returns_Run (P : Process) (alias : string) (d : Z)
    (command : string) (arguments : list string) (c : Config) (role : Role)
    (a : ARN) (res : Credentials) :
  LoadDefaultAWSConfig P = None ->
  firstByAlias alias (Roles c) = Some role ->
  Role_ARN role = Some a ->
  AssumeRole P d (ARN_String a) (SessionName role) = Ok res ->
  exists added,
    Permutation added [ "AWS_ACCESS_KEY_ID=" +:+ AccessKeyId res;
                        "AWS_SECRET_ACCESS_KEY=" +:+ SecretAccessKey res;
                        "AWS_SECURITY_TOKEN=" +:+ SessionToken res;
                        "AWS_SESSION_TOKEN=" +:+ SessionToken res ]
    /\ ExecRole P alias d command arguments c
       = Returns (Run P command arguments (Environ P ++ added))
    /\ (exitStatus (ExecRole P alias d command arguments c) = 0%Z
        <-> Run P command arguments (Environ P ++ added) = None).
Proof.
  intros Hcfg Hrole Harn Hsts.
  eexists. split; [reflexivity |].
  rewrite (ExecRole_spawns P alias d command arguments c role a res
             Hcfg Hrole Harn Hsts), childEnv_eq.
  split; [reflexivity |]. simpl.
  destruct (Run P command arguments _); split; intros H; try reflexivity;
    discriminate H.
Qed.

Lemma ExecRole_returns_Run_witness :
  exists added,
    Permutation added [ "AWS_ACCESS_KEY_ID=AKIA"; "AWS_SECRET_ACCESS_KEY=secret";
                        "AWS_SECURITY_TOKEN=token"; "AWS_SESSION_TOKEN=token" ]
    /\ ExecRole processExit3 "otter" 3600 "env" [] cfgTwo
       = Returns (Run processExit3 "env" [] (Environ processExit3 ++ added))
    /\ (exitStatus (ExecRole processExit3 "otter" 3600 "env" [] cfgTwo) = 0%Z
        <-> Run processExit3 "env" [] (Environ processExit3 ++ added) = None).
Proof.
  apply (ExecRole_returns_Run processExit3 "otter" 3600 "env" [] cfgTwo otter
           (arn.mkARN "aws" "iam" "" "000000000000" "role/otter")
           (mkCredentials "AKIA" "secret" "token"));
    reflexivity.
Defined.

(** X26: the failures of [ExecRole] before the child is started, in the
    order of the checks.  A failing AWS configuration is reported even for
    an alias that is not in the registry; an alias that is not there is
    reported without a call to STS; a refused [AssumeRole] is reported
    with the ARN of the role.  In all three cases the command is not run
    and the tool exits with status 1. *)
Theorem ExecRole_fails_before_spawn (P : Process) (alias : string) (d : Z)
    (command : string) (arguments : list string) (c : Config) :
  (forall err, LoadDefaultAWSConfig P = Some err ->
     ExecRole P alias d command arguments c
       = Returns (Some (ErrLoadAWSConfig err)))
  /\ (LoadDefaultAWSConfig P = None -> ~ In alias (aliases c) ->
      ExecRole P alias d command arguments c
        = Returns (Some (ErrGetRoleByAlias alias (ErrRoleNotFound alias))))
  /\ (forall role a err,
        LoadDefaultAWSConfig P = None ->
        firstByAlias alias (Roles c) = Some role -> Role_ARN role = Some a ->
        AssumeRole P d (ARN_String a) (SessionName role) = Err err ->
        ExecRole P alias d command arguments c
          = Returns (Some (ErrSTSAssumeRole (ARN_String a) err)))
  /\ (forall role,
        LoadDefaultAWSConfig P = None ->
        firstByAlias alias (Roles c) = Some role -> Role_ARN role = None ->
        ExecRole P alias d command arguments c = Panics).
Proof.
  split; [| split; [| split]].
  - intros err H. unfold ExecRole. now rewrite H.
  - intros Hcfg Hnot. apply firstByAlias_None in Hnot.
    unfold ExecRole, GetRoleByAlias. now rewrite Hcfg, Hnot.
  - intros role a err Hcfg Hrole Harn Hsts.
    unfold ExecRole, GetRoleByAlias, GetARN, GetSessionName.
    now rewrite Hcfg, Hrole, Harn, Hsts.
  - intros role Hcfg Hrole Harn.
    unfold ExecRole, GetRoleByAlias, GetARN. now rewrite Hcfg, Hrole, Harn.
Qed.

Lemma ExecRole_fails_before_spawn_witness :
  ExecRole processExit3 "zebra" 3600 "sh" [] cfgTwo
    = Returns (Some (ErrGetRoleByAlias "zebra" (ErrRoleNotFound "zebra")))
  /\ ExecRole processExit3 "bare" 3600 "sh" []
              (mkConfig "cfg" YAML [mkRole "bare" None "sess"]) = Panics.
Proof.
  split.
  - apply (proj1 (proj2 (ExecRole_fails_before_spawn processExit3 "zebra" 3600
                           "sh" [] cfgTwo))); [reflexivity | exact zebra_free].
  - apply (proj2 (proj2 (proj2 (ExecRole_fails_before_spawn processExit3 "bare"
             3600 "sh" [] (mkConfig "cfg" YAML [mkRole "bare" None "sess"]))))
             (mkRole "bare" None "sess")); reflexivity.
Defined.

(** X27: [execCmd] takes the alias from the first argument, the command
    from the second and its arguments from the rest, and ends as
    [ExecRole] ends on the loaded configuration.  With the alias alone
    after a dash it panics before anything is loaded; without a dash it
    fails with [ErrCommandMissing]. *)
Theorem execCmd_arguments (L : Libraries) (P : Process) (d : Z)
    (alias command : string) (arguments : list string) (dashIdx : Z)
    (fs fs1 : afero.Fs) (cfg : Config) :
  (dashIdx <> (-1)%Z -> user_Current P = None ->
   NewConfig L (configFile P) fs = (fs1, Ok cfg) ->
   execCmd L P d (alias :: command :: arguments) dashIdx fs
     = (fs1, ExecRole P alias d command arguments cfg))
  /\ (dashIdx <> (-1)%Z -> execCmd L P d [alias] dashIdx fs = (fs, Panics))
  /\ (dashIdx = (-1)%Z ->
      execCmd L P d (alias :: command :: arguments) dashIdx fs
        = (fs, Returns (Some ErrCommandMissing))).
Proof.
  split; [| split].
  - intros Hdash Huser Hnew. unfold execCmd.
    destruct (Z.eqb_spec dashIdx (-1)); [contradiction |].
    now rewrite Huser, Hnew.
  - intros Hdash. unfold execCmd.
    destruct (Z.eqb_spec dashIdx (-1)); [contradiction | reflexivity].
  - intros ->. reflexivity.
Qed.

Lemma execCmd_arguments_witness :
  execCmd idleLibraries processExit3 3600 ["skunk"; "sh"; "-c"; "exit 3"] 1 fsYAML
    = (fsYAML, ExecRole processExit3 "skunk" 3600 "sh" ["-c"; "exit 3"]
                        (mkConfig "cfg" YAML []))
  /\ execCmd idleLibraries processExit3 3600 ["skunk"] 1 fsYAML = (fsYAML, Panics).
Proof.
  split.
  - apply (proj1 (execCmd_arguments idleLibraries processExit3 3600 "skunk" "sh"
                    ["-c"; "exit 3"] 1 fsYAML fsYAML (mkConfig "cfg" YAML [])));
      [discriminate | reflexivity | reflexivity].
  - apply (proj1 (proj2 (execCmd_arguments idleLibraries processExit3 3600
                           "skunk" "sh" [] 1 fsYAML fsYAML (mkConfig "cfg" YAML [])))).
    discriminate.
Defined.

(** ** The shell *)

(** X28: [GetShell] returns a non-empty [SHELL] as it is, without looking
    it up.  With [SHELL] empty it returns [/bin/bash] as found, else
    [/bin/sh] as found.  It fails exactly when [SHELL] is empty and both
    lookups fail, and its error is then [ErrNoShell], the errors of the
    lookups being dropped. *)
Theorem GetShell_result (SHELL : string)
    (LookPath : string -> string * option error) :
  (SHELL <> EmptyString -> GetShell SHELL LookPath = (SHELL, None))
  /\ (SHELL = EmptyString -> snd (LookPath "/bin/bash") = None ->
      GetShell SHELL LookPath = (fst (LookPath "/bin/bash"), None))
  /\ (SHELL = EmptyString -> snd (LookPath "/bin/bash") <> None ->
      snd (LookPath "/bin/sh") = None ->
      GetShell SHELL LookPath = (fst (LookPath "/bin/sh"), None))
  /\ (snd (GetShell SHELL LookPath) <> None
      <-> SHELL = EmptyString /\ snd (LookPath "/bin/bash") <> None
          /\ snd (LookPath "/bin/sh") <> None)
  /\ (snd (GetShell SHELL LookPath) <> None ->
      GetShell SHELL LookPath = (EmptyString, Some ErrNoShell)).
Proof.
  unfold GetShell. destruct (String.eqb_spec SHELL EmptyString) as [-> | Hne].
  - destruct (LookPath "/bin/bash") as [b [eb|]]; simpl;
      destruct (LookPath "/bin/sh") as [s [es|]]; simpl;
      repeat split; intros; try reflexivity; try congruence; try tauto;
      try discriminate;
      repeat match goal with
             | H : _ /\ _ |- _ => destruct H
             end; congruence.
  - repeat split; intros; try reflexivity; try congruence; simpl in *;
      try tauto.
Qed.

Lemma GetShell_result_witness :
  GetShell "/bin/zsh" (fun _ => (EmptyString, Some (exec_Error "not found")))
    = ("/bin/zsh", None)
  /\ GetShell EmptyString
              (fun p => if String.eqb p "/bin/sh" then (p, None)
                        else (EmptyString, Some (exec_Error "not found")))
     = ("/bin/sh", None).
Proof.
  split.
  - apply (proj1 (GetShell_result "/bin/zsh" _)). discriminate.
  - apply (proj1 (proj2 (proj2 (GetShell_result EmptyString
             (fun p => if String.eqb p "/bin/sh" then (p, None)
                       else (EmptyString, Some (exec_Error "not found")))))));
      [reflexivity | discriminate | reflexivity].
Defined.

(** ** Parsed identifiers *)

Lemma genSplit_init_free (sep : ascii) (k : nat) (s : string) :
  Forall (fun piece => GoStrings.Count piece sep = 0)
         (removelast (GoStrings.genSplit sep k s)).
Proof.
  revert s. induction k as [|k IH]; intros s; simpl; [constructor |].
  destruct (GoStrings.cut sep s) as [[a b]|] eqn:E; [| constructor].
  apply cut_Some in E as (_ & Ha & _).
  specialize (IH b).
  destruct (GoStrings.genSplit sep k b) as [|x l] eqn:G.
  - pose proof (genSplit_length sep k b) as HL. rewrite G in HL. discriminate.
  - change (removelast (a :: x :: l)) with (a :: removelast (x :: l)).
    now constructor.
Qed.

(** X29: what [ParseARN] accepts is in normal form: the partition,
    service, region and account fields of the result hold no colon, the
    result prints as the string that was parsed, and parsing that print
    gives the same result. *)
Theorem ParseARN_normal_form (s : string) (a : ARN) :
  ParseARN s = (a, None) ->
  colonFree (arn.Partition a) /\ colonFree (arn.Service a)
  /\ colonFree (arn.Region a) /\ colonFree (arn.AccountID a)
  /\ ARN_String a = s
  /\ ParseARN (ARN_String a) = (a, None).
Proof.
  unfold ParseARN, ARN_String. intros Hparse.
  destruct (HasPrefix_cases s) as [(r & -> & _) | Hn];
    [| rewrite (Parse_no_prefix s Hn) in Hparse; discriminate].
  assert (Hfree : colonFree (arn.Partition a) /\ colonFree (arn.Service a)
                  /\ colonFree (arn.Region a) /\ colonFree (arn.AccountID a)).
  { rewrite Parse_prefixed in Hparse.
    pose proof (genSplit_init_free ":" 4 r) as Hf.
    destruct (GoStrings.genSplit ":" 4 r)
      as [|p [|sv [|rg [|acc [|res [|x l]]]]]]; try discriminate Hparse.
    injection Hparse as <-. simpl in Hf.
    apply Forall_cons in Hf as [Hp Hf]. apply Forall_cons in Hf as [Hsv Hf].
    apply Forall_cons in Hf as [Hrg Hf]. apply Forall_cons in Hf as [Hacc _].
    unfold colonFree. simpl. tauto. }
  destruct Hfree as (Hp & Hsv & Hrg & Hacc). repeat split; try assumption.
  - destruct (Nat.le_gt_cases 4 (GoStrings.Count r ":")) as [Hc | Hc].
    + destruct (Parse_enough_sections r Hc) as (a' & Ha' & Hstr). congruence.
    + rewrite (Parse_few_sections r Hc) in Hparse. discriminate.
  - now apply Parse_String_colonFree.
Qed.

Lemma ParseARN_normal_form_witness :
  ARN_String (arn.mkARN "aws" "rds" "eu-west-1" "123456789012" "db:mysql-db")
    = "arn:aws:rds:eu-west-1:123456789012:db:mysql-db".
Proof.
  apply (ParseARN_normal_form "arn:aws:rds:eu-west-1:123456789012:db:mysql-db"
           (arn.mkARN "aws" "rds" "eu-west-1" "123456789012" "db:mysql-db")).
  reflexivity.
Defined.
